(** * wellness-server: the queue-booking backend (server.js)

    A shallow embedding of the three REST handlers of [server.js]
    ([GET /api/slots], [POST /api/book], [GET /api/my-bookings]), of the
    LINE text-message handler [handleLineEvent] and of the webhook route
    that calls it, over an explicit model of the [bookings] table.

    Conventions.
    - JSON / query-string fields are [option string]: [None] is a field that
      is absent ([undefined]), [Some ""] the empty string.  Both are falsy.
    - SQLite [TEXT] values are [string]s (byte sequences); [=] and
      [ORDER BY] use the BINARY collation, i.e. byte-wise comparison.
    - Numbers ([COUNT( * )], row ids, capacities) are [Z].
    - What the environment decides (the clock, whether a database call or
      a LINE push fails) is an explicit input, the record [env].  The LINE
      client returns promises: a delivery that fails is a rejected promise.
    - Every handler returns its HTTP response together with the new table
      and the list of effects it performed, in order. *)

From Stdlib Require Import ZArith List Ascii String.
From Stdlib Require Import Sorting.Permutation Sorting.Sorted.
From stdpp Require Import base tactics option list sorting gmap strings pretty.

Local Open Scope string_scope.
Local Open Scope list_scope.
Local Open Scope Z_scope.

(** ** The [bookings] table *)

(** One row of [CREATE TABLE bookings (...)]. *)
Record booking := Booking {
  id : Z;
  lineUserId : string;
  name : string;
  date : string;
  time : string;
  note : string;
  status : string;
  createdAt : string
}.

(** The table together with its [sqlite_sequence] entry: [id] is declared
    [INTEGER PRIMARY KEY AUTOINCREMENT], so SQLite remembers the largest
    row id it ever handed out. *)
Record database := Database {
  rows : list booking;
  seq : Z
}.

(** The state right after [CREATE TABLE IF NOT EXISTS] on a fresh file. *)
Definition empty_db : database := {| rows := []; seq := 0 |}.

Definition max_rowid (l : list booking) : Z :=
  foldr (fun b m => Z.max (id b) m) 0 l.

(** The row id an [INSERT] without an explicit id receives. *)
Definition next_id (db : database) : Z :=
  Z.max (seq db) (max_rowid (rows db)) + 1.

(** ** Slot configuration *)

Definition TIME_SLOTS : list string :=
  [ "09:00"; "09:30";
    "10:00"; "10:30";
    "11:00"; "11:30";
    "13:00"; "13:30";
    "14:00"; "14:30";
    "15:00"; "15:30";
    "16:00" ].

Definition CAPACITY_PER_SLOT : Z := 1.

(** ** JavaScript helpers *)

(** [!x] is [negb (truthy x)] for a string-or-undefined value. *)
Definition truthy (x : option string) : bool :=
  match x with
  | Some s => negb (String.eqb s "")
  | None => false
  end.

(** [x || ''] for a string-or-undefined value. *)
Definition or_empty (x : option string) : string :=
  match x with
  | Some s => s
  | None => ""
  end.

Definition nl : string := String (Ascii.ascii_of_nat 10) "".

(** ** Effects and responses *)

Inductive effect :=
| DbGetCount (d t : string)
    (* db.get('SELECT COUNT( * ) ... WHERE date = ? AND time = ?') *)
| DbRunInsert (u n d t nt c : string)
    (* db.run('INSERT INTO bookings ...') *)
| DbAllGroup (d : string)
    (* db.all('SELECT time, COUNT( * ) ... GROUP BY time') *)
| DbAllUser (u : option string)
    (* db.all('SELECT * ... WHERE lineUserId = ? ORDER BY date, time') *)
| PushMessage (to text : string)
    (* lineClient.pushMessage *)
| ReplyMessage (token text : string)
    (* lineClient.replyMessage *)
| ConsoleError
    (* console.error *).

(** [res.status(code).json(body)]; an error body is [{ error: msg }]. *)
Inductive response (A : Type) :=
| Json (code : Z) (body : A)
| Error (code : Z) (msg : string).
Arguments Json {A} code body.
Arguments Error {A} code msg.

Record outcome (A : Type) := Outcome {
  resp : response A;
  db_after : database;
  trace : list effect
}.
Arguments Outcome {A} resp db_after trace.
Arguments resp {A} o.
Arguments db_after {A} o.
Arguments trace {A} o.

(** ** Queries *)

Definition in_slot (d t : string) (b : booking) : Prop :=
  date b = d ∧ time b = t.

Global Instance in_slot_dec d t b : Decision (in_slot d t b).
Proof. unfold in_slot. apply _. Defined.

(** [SELECT COUNT( * ) as count FROM bookings WHERE date = ? AND time = ?] *)
Definition count_slot (d t : string) (l : list booking) : Z :=
  Z.of_nat (length (filter (in_slot d t) l)).

(** The count of [CONFIRMED] bookings of a slot, the spec's [countActive]. *)
Definition count_confirmed (d t : string) (l : list booking) : Z :=
  Z.of_nat (length (filter (fun b => in_slot d t b ∧ status b = "CONFIRMED") l)).

(** [INSERT INTO bookings (lineUserId, name, date, time, note, createdAt)
    VALUES (?,?,?,?,?,?)]: [id] is assigned by AUTOINCREMENT and [status]
    takes the column default ['CONFIRMED'].  Returns the new table and
    [this.lastID], taken to be the new row id itself.  That is what the
    callback reads as long as row ids stay within 2^53, the range in which
    a JavaScript number holds an integer exactly; [insert_booking_js] below
    is the INSERT without that proviso. *)
Definition insert_booking (u n d t nt c : string) (db : database)
  : database * Z :=
  let i := next_id db in
  ({| rows := rows db ++ [Booking i u n d t nt "CONFIRMED" c]; seq := i |}, i).

(** ** Row ids as JavaScript numbers

    SQLite row ids are 64-bit integers, and an AUTOINCREMENT insert fails
    (SQLITE_FULL) once the largest one has been used.  [this.lastID]
    reaches the callback as a JavaScript number, an IEEE double: the
    integer itself up to 2^53 in absolute value, the nearest double (ties
    to even) beyond. *)
Definition MAX_SAFE_INTEGER : Z := 9007199254740991.
Definition MAX_ROWID : Z := 9223372036854775807.

Definition js_number (i : Z) : Z :=
  let a := Z.abs i in
  if (a <=? MAX_SAFE_INTEGER + 1)%Z then i
  else
    let e := Z.log2 a - 52 in
    let q := Z.shiftr a e in
    let r := Z.land a (Z.ones e) in
    let half := Z.shiftl 1 (e - 1) in
    let q' := if (half <? r)%Z || ((r =? half)%Z && Z.odd q)
              then q + 1 else q in
    Z.sgn i * Z.shiftl q' e.

(** The INSERT with the row id limit and with [this.lastID] as the
    callback reads it; [None] is the INSERT calling back with an error. *)
Definition insert_booking_js (u n d t nt c : string) (db : database)
  : option (database * Z) :=
  let i := next_id db in
  if (MAX_ROWID <? i)%Z then None
  else
    Some ({| rows := rows db ++ [Booking i u n d t nt "CONFIRMED" c];
             seq := i |},
          js_number i).

(** ** POST /api/book *)

Record book_req := BookReq {
  q_lineUserId : option string;
  q_name : option string;
  q_date : option string;
  q_time : option string;
  q_note : option string
}.

(** What the environment contributes to one request. *)
Record env := Env {
  now : string;          (* new Date().toISOString() *)
  get_err : bool;        (* the COUNT query calls back with an error *)
  run_err : bool;        (* the INSERT calls back with an error *)
  push_rejects : bool    (* the promise of pushMessage is rejected *)
}.

Definition confirm_text (n d t : string) (i : Z) : string :=
  "✅ จองคิวสำเร็จแล้ว" +:+ nl +:+ nl +:+
  "ชื่อ: " +:+ n +:+ nl +:+
  "วันที่: " +:+ d +:+ nl +:+
  "เวลา: " +:+ t +:+ nl +:+
  "หมายเลขการจอง: #" +:+ pretty i.

(** [lineClient.pushMessage(...).catch(e => console.error(...))] *)
Definition push_confirmation (e : env) (u n d t : string) (i : Z) : list effect :=
  PushMessage u (confirm_text n d t i) ::
  (if push_rejects e then [ConsoleError] else []).

Definition post_book (e : env) (q : book_req) (db : database) : outcome booking :=
  if negb (truthy (q_lineUserId q)) || negb (truthy (q_name q))
     || negb (truthy (q_date q)) || negb (truthy (q_time q))
  then Outcome (Error 400 "lineUserId, name, date, time are required") db []
  else
    let u := or_empty (q_lineUserId q) in
    let n := or_empty (q_name q) in
    let d := or_empty (q_date q) in
    let t := or_empty (q_time q) in
    if get_err e
    then Outcome (Error 500 "db error") db [DbGetCount d t; ConsoleError]
    else
      let count := count_slot d t (rows db) in
      if (count >=? CAPACITY_PER_SLOT)%Z
      then Outcome (Error 409 "slot is full") db [DbGetCount d t]
      else
        let c := now e in
        let nt := or_empty (q_note q) in
        if run_err e
        then Outcome (Error 500 "db error") db
               [DbGetCount d t; DbRunInsert u n d t nt c; ConsoleError]
        else
          let '(db', bookingId) := insert_booking u n d t nt c db in
          Outcome (Json 201 (Booking bookingId u n d t nt "CONFIRMED" c)) db'
            ([DbGetCount d t; DbRunInsert u n d t nt c]
             ++ push_confirmation e u n d t bookingId).

(** ** POST /api/book on the event loop

    The handler above is three callbacks: the route handler, the callback
    of [db.get] and the callback of [db.run].  Between them SQLite runs the
    two statements.  Each of these five pieces runs without interruption,
    but pieces of different requests may interleave.  A [task] is a request
    together with the piece it waits for. *)

Inductive task :=
| Received (e : env) (q : book_req)
    (* the route handler has not run yet *)
| CountQueued (e : env) (q : book_req)
    (* db.get was called, the SELECT has not run yet *)
| CountDone (e : env) (q : book_req) (row : option Z)
    (* the SELECT ran ([None]: with an error), its callback has not *)
| InsertQueued (e : env) (q : book_req) (c : string)
    (* db.run was called, the INSERT has not run yet *)
| InsertDone (e : env) (q : book_req) (c : string) (lastID : option Z)
    (* the INSERT ran ([None]: with an error), its callback has not *)
| Responded (r : response booking).

Definition step_task (t : task) (db : database)
  : task * database * list effect :=
  match t with
  | Received e q =>
      if negb (truthy (q_lineUserId q)) || negb (truthy (q_name q))
         || negb (truthy (q_date q)) || negb (truthy (q_time q))
      then (Responded (Error 400 "lineUserId, name, date, time are required"),
            db, [])
      else (CountQueued e q, db,
            [DbGetCount (or_empty (q_date q)) (or_empty (q_time q))])
  | CountQueued e q =>
      if get_err e then (CountDone e q None, db, [])
      else (CountDone e q
              (Some (count_slot (or_empty (q_date q)) (or_empty (q_time q))
                       (rows db))),
            db, [])
  | CountDone e q None =>
      (Responded (Error 500 "db error"), db, [ConsoleError])
  | CountDone e q (Some count) =>
      if (count >=? CAPACITY_PER_SLOT)%Z
      then (Responded (Error 409 "slot is full"), db, [])
      else (InsertQueued e q (now e), db,
            [DbRunInsert (or_empty (q_lineUserId q)) (or_empty (q_name q))
               (or_empty (q_date q)) (or_empty (q_time q))
               (or_empty (q_note q)) (now e)])
  | InsertQueued e q c =>
      if run_err e then (InsertDone e q c None, db, [])
      else
        let '(db', i) :=
          insert_booking (or_empty (q_lineUserId q)) (or_empty (q_name q))
            (or_empty (q_date q)) (or_empty (q_time q))
            (or_empty (q_note q)) c db in
        (InsertDone e q c (Some i), db', [])
  | InsertDone e q c None =>
      (Responded (Error 500 "db error"), db, [ConsoleError])
  | InsertDone e q c (Some bookingId) =>
      let u := or_empty (q_lineUserId q) in
      let n := or_empty (q_name q) in
      let d := or_empty (q_date q) in
      let t := or_empty (q_time q) in
      (Responded (Json 201 (Booking bookingId u n d t (or_empty (q_note q))
                              "CONFIRMED" c)),
       db, push_confirmation e u n d t bookingId)
  | Responded r => (Responded r, db, [])
  end.

Record server := Server {
  store : database;
  tasks : list task;
  log : list effect
}.

(** The event loop runs the next piece of task number [i]. *)
Definition step (s : server) (i : nat) : server :=
  match tasks s !! i with
  | Some t =>
      let '(t', db', evs) := step_task t (store s) in
      {| store := db'; tasks := <[i := t']> (tasks s); log := log s ++ evs |}
  | None => s
  end.

(** A schedule names, piece by piece, the task that runs next. *)
Definition run (s : server) (sched : list nat) : server :=
  foldl step s sched.

(** ** GET /api/slots *)

Record slot_view := SlotView {
  s_time : string;
  s_capacity : Z;
  s_booked : Z;
  s_available : Z;
  s_isFull : bool
}.

Record slots_body := SlotsBody {
  sb_date : string;
  sb_slots : list slot_view
}.

(** [SELECT time, COUNT( * ) as count FROM bookings WHERE date = ?
    GROUP BY time]: one row per distinct [time] among the rows of that
    date. *)
Definition group_by_time (d : string) (l : list booking) : list (string * Z) :=
  let sel := filter (fun b => date b = d) l in
  (fun t => (t, Z.of_nat (length (filter (fun b => time b = t) sel))))
    <$> remove_dups (time <$> sel).

(** [rows.forEach(r => { bookedMap[r.time] = r.count; })] from [{}].  The
    object is only ever read at the labels of [TIME_SLOTS], none of which
    is an inherited property name, so a finite map gives the same reads. *)
Definition build_bookedMap (rs : list (string * Z)) : gmap string Z :=
  foldl (fun m r => <[r.1 := r.2]> m) ∅ rs.

(** [x || 0] for a number-or-undefined value. *)
Definition or_zero (x : option Z) : Z :=
  match x with
  | Some c => if (c =? 0)%Z then 0 else c
  | None => 0
  end.

Definition slot_of (bookedMap : gmap string Z) (t : string) : slot_view :=
  let used := or_zero (bookedMap !! t) in
  let available := CAPACITY_PER_SLOT - used in
  {| s_time := t;
     s_capacity := CAPACITY_PER_SLOT;
     s_booked := used;
     s_available := available;
     s_isFull := (available <=? 0)%Z |}.

Definition get_slots (err : bool) (qdate : option string) (db : database)
  : outcome slots_body :=
  if negb (truthy qdate)
  then Outcome (Error 400 "date is required (YYYY-MM-DD)") db []
  else
    let d := or_empty qdate in
    if err
    then Outcome (Error 500 "db error") db [DbAllGroup d; ConsoleError]
    else
      let bookedMap := build_bookedMap (group_by_time d (rows db)) in
      let slots := slot_of bookedMap <$> TIME_SLOTS in
      Outcome (Json 200 (SlotsBody d slots)) db [DbAllGroup d].

(** ** GET /api/my-bookings *)

(** [ORDER BY date, time] compares the two TEXT columns byte-wise, [date]
    first. *)
Definition row_leb (a b : booking) : bool :=
  match String.compare (date a) (date b) with
  | Lt => true
  | Eq => String.leb (time a) (time b)
  | Gt => false
  end.

Fixpoint insert_row (x : booking) (l : list booking) : list booking :=
  match l with
  | [] => [x]
  | y :: l' => if row_leb x y then x :: y :: l' else y :: insert_row x l'
  end.

(** The sorter: a stable sort of the selected rows (rows with equal
    [(date, time)] stay in table order). *)
Definition order_by_date_time (l : list booking) : list booking :=
  foldr insert_row [] l.

(** [SELECT * FROM bookings WHERE lineUserId = ? ORDER BY date, time].  A
    parameter that is [undefined] binds NULL, and [lineUserId = NULL]
    holds for no row. *)
Definition select_by_user (u : option string) (l : list booking) : list booking :=
  match u with
  | Some v => order_by_date_time (filter (fun b => lineUserId b = v) l)
  | None => []
  end.

Definition get_my_bookings (err : bool) (quser : option string) (db : database)
  : outcome (list booking) :=
  if negb (truthy quser)
  then Outcome (Error 400 "lineUserId is required") db []
  else
    if err
    then Outcome (Error 500 "db error") db [DbAllUser quser; ConsoleError]
    else Outcome (Json 200 (select_by_user quser (rows db))) db [DbAllUser quser].

(** ** The LINE text-message handler *)

(** [String.prototype.trim] on UTF-8 bytes: the code points it strips are
    U+0009..U+000D, U+0020, U+00A0, U+1680, U+2000..U+200A, U+2028,
    U+2029, U+202F, U+205F, U+3000 and U+FEFF. *)
Definition ws1 (a : ascii) : bool :=
  let n := nat_of_ascii a in
  ((9 <=? n)%nat && (n <=? 13)%nat) || (n =? 32)%nat.

Definition ws2 (a b : ascii) : bool :=
  (nat_of_ascii a =? 194)%nat && (nat_of_ascii b =? 160)%nat.

Definition ws3 (a b c : ascii) : bool :=
  let x := nat_of_ascii a in
  let y := nat_of_ascii b in
  let z := nat_of_ascii c in
  ((x =? 225)%nat && (y =? 154)%nat && (z =? 128)%nat)
  || ((x =? 226)%nat && (y =? 128)%nat
      && (((128 <=? z)%nat && (z <=? 138)%nat)
          || (z =? 168)%nat || (z =? 169)%nat || (z =? 175)%nat))
  || ((x =? 226)%nat && (y =? 129)%nat && (z =? 159)%nat)
  || ((x =? 227)%nat && (y =? 128)%nat && (z =? 128)%nat)
  || ((x =? 239)%nat && (y =? 187)%nat && (z =? 191)%nat).

Fixpoint trim_start (s : string) : string :=
  match s with
  | String a r =>
      if ws1 a then trim_start r
      else
        match r with
        | String b r2 =>
            if ws2 a b then trim_start r2
            else
              match r2 with
              | String c r3 => if ws3 a b c then trim_start r3 else s
              | EmptyString => s
              end
        | EmptyString => s
        end
  | EmptyString => EmptyString
  end.

(** The same scan from the end, on the reversed string. *)
Fixpoint trim_start_rev (s : string) : string :=
  match s with
  | String a r =>
      if ws1 a then trim_start_rev r
      else
        match r with
        | String b r2 =>
            if ws2 b a then trim_start_rev r2
            else
              match r2 with
              | String c r3 => if ws3 c b a then trim_start_rev r3 else s
              | EmptyString => s
              end
        | EmptyString => s
        end
  | EmptyString => EmptyString
  end.

Definition trim (s : string) : string :=
  String.rev (trim_start_rev (String.rev (trim_start s))).

Record line_event := LineEvent {
  ev_type : string;             (* event.type *)
  ev_message_type : string;     (* event.message.type *)
  ev_text : string;             (* event.message.text *)
  ev_userId : option string;    (* event.source.userId *)
  ev_replyToken : string        (* event.replyToken *)
}.

(** How the promise returned by [handleLineEvent] settles. *)
Inductive settled :=
| ResolvedNull
| ResolvedReply
| Rejected.

Definition dq : string := String (Ascii.ascii_of_nat 34) "".

Definition helpText : string :=
  "หากต้องการจองคิว ให้กดปุ่ม " +:+ dq +:+ "จองคิว" +:+ dq +:+
  " ในเมนูด้านล่าง หรือพิมพ์คำว่า " +:+ dq +:+ "คิวของฉัน" +:+ dq +:+
  " เพื่อดูคิวล่าสุดของคุณ".

Definition queue_line (b : booking) : string :=
  "• " +:+ date b +:+ " เวลา " +:+ time b +:+ " (#" +:+ pretty (id b) +:+ ")".

(** The text the callback of the query builds from [rows]. *)
Definition queue_text (rs : list booking) : string :=
  if (length rs =? 0)%nat
  then "ตอนนี้ยังไม่มีคิวในระบบนะคะ"
  else "🗓 คิวของคุณมีดังนี้" +:+ nl +:+ nl +:+
       String.concat nl (queue_line <$> rs).

(** [lineClient.replyMessage(event.replyToken, { type: 'text', text })] *)
Definition reply (reply_rejects : bool) (token text : string)
  : settled * list effect :=
  (if reply_rejects then Rejected else ResolvedReply,
   [ReplyMessage token text]).

Definition handleLineEvent (db_err reply_rejects : bool) (ev : line_event)
    (db : database) : settled * list effect :=
  if negb (String.eqb (ev_type ev) "message")
     || negb (String.eqb (ev_message_type ev) "text")
  then (ResolvedNull, [])
  else
    let userId := ev_userId ev in
    let text := trim (ev_text ev) in
    if String.eqb text "คิวของฉัน"
    then
      if db_err
      then (Rejected, [DbAllUser userId; ConsoleError])
      else
        let rs := select_by_user userId (rows db) in
        let '(p, evs) := reply reply_rejects (ev_replyToken ev) (queue_text rs) in
        (p, DbAllUser userId :: evs)
    else reply reply_rejects (ev_replyToken ev) helpText.

(** ** Vocabulary of the specification *)

(** A required field that is missing or empty. *)
Definition missing_or_empty (x : option string) : Prop :=
  x = None ∨ x = Some "".

(** All four required fields of a booking request are non-empty. *)
Definition complete (q : book_req) : Prop :=
  truthy (q_lineUserId q) = true ∧ truthy (q_name q) = true ∧
  truthy (q_date q) = true ∧ truthy (q_time q) = true.

Definition all_confirmed (l : list booking) : Prop :=
  Forall (fun b => status b = "CONFIRMED") l.

(** No slot holds more bookings than its capacity. *)
Definition within_capacity (l : list booking) : Prop :=
  ∀ d t, count_slot d t l ≤ CAPACITY_PER_SLOT.

Definition is_push (ev : effect) : Prop :=
  match ev with
  | PushMessage _ _ => True
  | _ => False
  end.

Definition set_push_rejects (b : bool) (e : env) : env :=
  {| now := now e; get_err := get_err e; run_err := run_err e;
     push_rejects := b |}.

(** The tables the program can produce: from the empty table, by pieces of
    booking requests in any interleaving. *)
Inductive reachable : database → Prop :=
| reachable_empty : reachable empty_db
| reachable_step s i : reachable (store s) → reachable (store (step s i)).

(** Byte-wise order on TEXT values and the order of [ORDER BY date, time]. *)
Definition str_lt (s1 s2 : string) : Prop := String.compare s1 s2 = Lt.
Definition str_le (s1 s2 : string) : Prop := String.compare s1 s2 ≠ Gt.

Definition key (b : booking) : string * string := (date b, time b).

Definition key_le (k1 k2 : string * string) : Prop :=
  str_lt k1.1 k2.1 ∨ (k1.1 = k2.1 ∧ str_le k1.2 k2.2).

Definition row_le (a b : booking) : Prop := key_le (key a) (key b).

(** The availability entry the specification prescribes for a slot with
    [booked] bookings. *)
Definition spec_slot (booked : Z) (t : string) : slot_view :=
  {| s_time := t;
     s_capacity := CAPACITY_PER_SLOT;
     s_booked := booked;
     s_available := CAPACITY_PER_SLOT - booked;
     s_isFull := bool_decide (CAPACITY_PER_SLOT - booked ≤ 0) |}.

(** ** Sample data *)

Definition env_ok : env :=
  {| now := "2024-01-01T08:00:00.000Z"; get_err := false; run_err := false;
     push_rejects := false |}.

Definition env_push_fails : env := set_push_rejects true env_ok.

Definition req_ann : book_req :=
  BookReq (Some "Uann") (Some "Ann") (Some "2024-01-01") (Some "09:00") None.

Definition req_bob : book_req :=
  BookReq (Some "Ubob") (Some "Bob") (Some "2024-01-01") (Some "09:00")
    (Some "first visit").

Definition req_no_name : book_req :=
  BookReq (Some "Uann") (Some "") (Some "2024-01-01") (Some "09:00") None.

Definition req_odd_time : book_req :=
  BookReq (Some "Uann") (Some "Ann") (Some "2024-01-01") (Some "25:99") None.

Definition db_ann : database := db_after (post_book env_ok req_ann empty_db).

Definition db_odd : database := db_after (post_book env_ok req_odd_time db_ann).

(** A week of bookings, entered out of calendar order. *)
Definition week_requests : list book_req :=
  [ BookReq (Some "Uann") (Some "Ann") (Some "2024-01-02") (Some "10:00") None;
    BookReq (Some "Ubob") (Some "Bob") (Some "2024-01-01") (Some "09:00") None;
    BookReq (Some "Uann") (Some "Ann") (Some "2024-01-01") (Some "13:30") None;
    BookReq (Some "Uann") (Some "Ann") (Some "2024-01-01") (Some "09:30") None ].

Definition db_week : database :=
  foldl (fun db q => db_after (post_book env_ok q db)) empty_db week_requests.

Definition my_queue_event : line_event :=
  {| ev_type := "message"; ev_message_type := "text";
     ev_text := " คิวของฉัน" +:+ nl;
     ev_userId := Some "Uann"; ev_replyToken := "token-1" |}.

(** ** Further vocabulary: the event loop *)

(** The number of pieces a request still has to run before it is answered. *)
Definition pieces_left (t : task) : nat :=
  match t with
  | Received _ _ => 5
  | CountQueued _ _ => 4
  | CountDone _ _ _ => 3
  | InsertQueued _ _ _ => 2
  | InsertDone _ _ _ _ => 1
  | Responded _ => 0
  end.

(** How often the schedule runs task [i]. *)
Definition times_scheduled (i : nat) (sched : list nat) : nat :=
  length (filter (fun j => j = i) sched).

(** The schedule that serves [n] requests, numbered from [k], one after the
    other: the five pieces of each run back to back. *)
Definition serial_schedule (k n : nat) : list nat :=
  List.concat ((fun i => replicate 5 i) <$> List.seq k n).

(** The servers the program can be in: it starts on the empty table with
    any batch of requests received, and runs pieces in any order. *)
Inductive reachable_server : server → Prop :=
| reachable_start (reqs : list (env * book_req)) :
    reachable_server
      (Server empty_db ((fun r => Received r.1 r.2) <$> reqs) [])
| reachable_piece s i : reachable_server s → reachable_server (step s i).

(** No required column of the row is empty. *)
Definition well_formed_row (b : booking) : Prop :=
  lineUserId b ≠ "" ∧ name b ≠ "" ∧ date b ≠ "" ∧ time b ≠ "".

(** What became of a request, as far as the table is concerned: a piece
    past the first belongs to a complete request; an INSERT that has run
    and a 201 answer name a row of the table. *)
Definition task_sound (db : database) (t : task) : Prop :=
  match t with
  | Received _ _ => True
  | CountQueued _ q | CountDone _ q _ | InsertQueued _ q _
  | InsertDone _ q _ None => complete q
  | InsertDone _ q c (Some i) =>
      complete q ∧
      Booking i (or_empty (q_lineUserId q)) (or_empty (q_name q))
        (or_empty (q_date q)) (or_empty (q_time q)) (or_empty (q_note q))
        "CONFIRMED" c ∈ rows db
  | Responded (Json _ b) => b ∈ rows db
  | Responded (Error _ _) => True
  end.

(** Serving requests one after the other with the handler: the answers in
    order, the final table and all effects. *)
Fixpoint serve (reqs : list (env * book_req)) (db : database)
  : list (response booking) * database * list effect :=
  match reqs with
  | [] => ([], db, [])
  | r :: reqs' =>
      let o := post_book r.1 r.2 db in
      let '(rs, db', tr) := serve reqs' (db_after o) in
      (resp o :: rs, db', trace o ++ tr)
  end.

(** The bookings an availability answer accounts for, all slots together. *)
Definition total_booked (slots : list slot_view) : Z :=
  foldr (fun v acc => s_booked v + acc) 0 slots.

(** ** The webhook

    Once [line.middleware] has accepted the request,
    [app.post('/webhook', ...)] hands every event of the request body to
    [handleLineEvent] and answers with the array of their results, or with
    an empty 500 as soon as one of the promises is rejected ([Promise.all]).
    The handlers run concurrently: only the order of the effects of one
    handler is fixed, so the effects are kept per event. *)

(** The value a handler's promise is fulfilled with: [null], or whatever
    [replyMessage] resolved to. *)
Inductive fulfilled :=
| Null
| ReplyResult.

Definition fulfilment (p : settled) : option fulfilled :=
  match p with
  | ResolvedNull => Some Null
  | ResolvedReply => Some ReplyResult
  | Rejected => None
  end.

(** An event together with what the environment does to its handler. *)
Record delivery := Delivery {
  dl_event : line_event;
  dl_db_err : bool;          (* the query of this handler fails *)
  dl_reply_rejects : bool    (* the reply of this handler is rejected *)
}.

Inductive webhook_response :=
| WebhookJson (result : list fulfilled)   (* res.json(result) *)
| WebhookEnd (code : Z)                   (* res.status(500).end() *).

Definition webhook (ds : list delivery) (db : database)
  : webhook_response * list effect * list (list effect) :=
  let outs :=
    (fun d => handleLineEvent (dl_db_err d) (dl_reply_rejects d)
                (dl_event d) db) <$> ds in
  match mapM (fun o => fulfilment o.1) outs with
  | Some result => (WebhookJson result, [], snd <$> outs)
  | None => (WebhookEnd 500, [ConsoleError], snd <$> outs)
  end.

(** ** Further vocabulary: the chat side *)

Definition is_text_message (ev : line_event) : Prop :=
  ev_type ev = "message" ∧ ev_message_type ev = "text".

(** The text is the "my queue" command, surrounding white space apart. *)
Definition is_my_queue (ev : line_event) : Prop :=
  trim (ev_text ev) = "คิวของฉัน".

(** When the promise of [handleLineEvent] is rejected. *)
Definition chat_rejects (db_err reply_rejects : bool) (ev : line_event)
  : Prop :=
  is_text_message ev ∧
  ((is_my_queue ev ∧ db_err = true) ∨ reply_rejects = true).

Definition is_reply (x : effect) : Prop :=
  match x with
  | ReplyMessage _ _ => True
  | _ => False
  end.

Global Instance is_reply_dec x : Decision (is_reply x).
Proof. destruct x; simpl; apply _. Defined.

(** A string of ASCII white space only (tab, line feed, vertical tab, form
    feed, carriage return, space). *)
Fixpoint ascii_blank (s : string) : bool :=
  match s with
  | EmptyString => true
  | String a r => ws1 a && ascii_blank r
  end.

Definition two_events : list delivery :=
  [ {| dl_event := LineEvent "follow" "" "" (Some "Uann") "token-0";
       dl_db_err := true; dl_reply_rejects := true |};
    {| dl_event := my_queue_event;
       dl_db_err := false; dl_reply_rejects := false |} ].

(** The row a request has put into the table, once its INSERT has run. *)
Definition row_of_task (t : task) : option booking :=
  match t with
  | InsertDone _ q c (Some i) =>
      Some (Booking i (or_empty (q_lineUserId q)) (or_empty (q_name q))
              (or_empty (q_date q)) (or_empty (q_time q))
              (or_empty (q_note q)) "CONFIRMED" c)
  | Responded (Json _ b) => Some b
  | _ => None
  end.

(** The body of a 201 answer. *)
Definition created (t : task) : option booking :=
  match t with
  | Responded (Json _ b) => Some b
  | _ => None
  end.

Definition answered (t : task) : Prop :=
  match t with
  | Responded _ => True
  | _ => False
  end.

Global Instance is_push_dec x : Decision (is_push x).
Proof. destruct x; simpl; apply _. Defined.

(** * Properties *)

(** ** Truthiness *)

Lemma truthy_false_iff x : truthy x = false ↔ missing_or_empty x.
Proof.
  unfold missing_or_empty. destruct x as [s|]; simpl.
  - rewrite negb_false_iff, String.eqb_eq. split.
    + intros ->. by right.
    + intros [?|[= ->]]; done.
  - split; auto.
Qed.

Lemma truthy_true_iff x : truthy x = true ↔ ∃ s, x = Some s ∧ s ≠ "".
Proof.
  destruct x as [s|]; simpl.
  - rewrite negb_true_iff, String.eqb_neq. split.
    + intros ?. by exists s.
    + by intros (? & [= ->] & ?).
  - split; [done | by intros (? & ? & ?)].
Qed.

Lemma truthy_some s : s ≠ "" → truthy (Some s) = true.
Proof. intros. apply truthy_true_iff. by exists s. Qed.

Lemma complete_guard q :
  complete q →
  negb (truthy (q_lineUserId q)) || negb (truthy (q_name q))
  || negb (truthy (q_date q)) || negb (truthy (q_time q)) = false.
Proof. by intros (-> & -> & -> & ->). Qed.

Lemma incomplete_guard q :
  missing_or_empty (q_lineUserId q) ∨ missing_or_empty (q_name q) ∨
  missing_or_empty (q_date q) ∨ missing_or_empty (q_time q) →
  negb (truthy (q_lineUserId q)) || negb (truthy (q_name q))
  || negb (truthy (q_date q)) || negb (truthy (q_time q)) = true.
Proof.
  rewrite <- !truthy_false_iff.
  intros [-> | [-> | [-> | ->]]]; simpl;
    rewrite ?orb_true_r; reflexivity.
Qed.

(** ** The three ways [POST /api/book] ends *)

Lemma post_book_incomplete e q db :
  missing_or_empty (q_lineUserId q) ∨ missing_or_empty (q_name q) ∨
  missing_or_empty (q_date q) ∨ missing_or_empty (q_time q) →
  post_book e q db =
    Outcome (Error 400 "lineUserId, name, date, time are required") db [].
Proof. intros H. unfold post_book. by rewrite incomplete_guard. Qed.

Lemma post_book_full e q db :
  complete q → get_err e = false →
  (count_slot (or_empty (q_date q)) (or_empty (q_time q)) (rows db)
     >= CAPACITY_PER_SLOT)%Z →
  post_book e q db =
    Outcome (Error 409 "slot is full") db
      [DbGetCount (or_empty (q_date q)) (or_empty (q_time q))].
Proof.
  intros Hq He Hc. unfold post_book.
  rewrite complete_guard, He by done.
  apply Z.geb_ge in Hc. by rewrite Hc.
Qed.

Lemma post_book_free e q db :
  complete q → get_err e = false → run_err e = false →
  (count_slot (or_empty (q_date q)) (or_empty (q_time q)) (rows db)
     < CAPACITY_PER_SLOT)%Z →
  let u := or_empty (q_lineUserId q) in
  let n := or_empty (q_name q) in
  let d := or_empty (q_date q) in
  let t := or_empty (q_time q) in
  let nt := or_empty (q_note q) in
  let b := Booking (next_id db) u n d t nt "CONFIRMED" (now e) in
  post_book e q db =
    Outcome (Json 201 b) {| rows := rows db ++ [b]; seq := next_id db |}
      ([DbGetCount d t; DbRunInsert u n d t nt (now e)]
       ++ push_confirmation e u n d t (next_id db)).
Proof.
  intros Hq He Hr Hc. unfold post_book.
  rewrite complete_guard, He, Hr by done.
  assert ((count_slot (or_empty (q_date q)) (or_empty (q_time q)) (rows db)
             >=? CAPACITY_PER_SLOT)%Z = false) as ->.
  { rewrite Z.geb_leb. apply Z.leb_gt. lia. }
  reflexivity.
Qed.

(** Whatever the request and the environment, a 201 answer comes from the
    last branch of the handler. *)
Lemma post_book_created e q db b :
  resp (post_book e q db) = Json 201 b →
  complete q ∧ get_err e = false ∧ run_err e = false ∧
  (count_slot (or_empty (q_date q)) (or_empty (q_time q)) (rows db)
     < CAPACITY_PER_SLOT)%Z.
Proof.
  unfold post_book, complete.
  destruct (truthy (q_lineUserId q)), (truthy (q_name q)),
    (truthy (q_date q)), (truthy (q_time q)); simpl; try discriminate.
  destruct (get_err e); simpl; [discriminate|].
  destruct (Z.geb_spec
    (count_slot (or_empty (q_date q)) (or_empty (q_time q)) (rows db))
    CAPACITY_PER_SLOT); simpl; [discriminate|].
  destruct (run_err e); simpl; [discriminate|].
  intros _. repeat split; try done; lia.
Qed.

(** ** Row ids *)

Lemma max_rowid_ge l r : r ∈ l → id r ≤ max_rowid l.
Proof.
  induction l as [|x l IH]; simpl.
  - by intros ?%elem_of_nil.
  - intros [-> | Hr]%elem_of_cons; [lia|].
    specialize (IH Hr). lia.
Qed.

Lemma next_id_fresh db r : r ∈ rows db → id r < next_id db.
Proof. intros H%max_rowid_ge. unfold next_id. lia. Qed.

Lemma next_id_seq db : seq db < next_id db.
Proof. unfold next_id. lia. Qed.

Lemma all_confirmed_snoc l b :
  all_confirmed l → status b = "CONFIRMED" → all_confirmed (l ++ [b]).
Proof.
  intros Hl Hb. apply Forall_app. split; [done|]. by constructor.
Qed.

(** ** Claims about [POST /api/book] *)

(** C5 — Validation precedence: when [lineUserId], [name], [date] or [time]
    is missing or empty, the request is answered 400 (ValidationError), the
    table is untouched and the handler performs no effect at all, hence no
    read and no write of the store; on the event loop the request is
    finished by its first piece. *)
Theorem validation_precedence e q db :
  missing_or_empty (q_lineUserId q) ∨ missing_or_empty (q_name q) ∨
  missing_or_empty (q_date q) ∨ missing_or_empty (q_time q) →
  resp (post_book e q db)
    = Error 400 "lineUserId, name, date, time are required" ∧
  db_after (post_book e q db) = db ∧
  trace (post_book e q db) = [] ∧
  step_task (Received e q) db
    = (Responded (Error 400 "lineUserId, name, date, time are required"),
       db, []).
Proof.
  intros H. rewrite post_book_incomplete by done. simpl.
  by rewrite incomplete_guard.
Qed.

Lemma validation_precedence_witness :
  (missing_or_empty (q_lineUserId req_no_name) ∨
   missing_or_empty (q_name req_no_name) ∨
   missing_or_empty (q_date req_no_name) ∨
   missing_or_empty (q_time req_no_name)) ∧
  resp (post_book env_ok req_no_name db_ann)
    = Error 400 "lineUserId, name, date, time are required" ∧
  db_after (post_book env_ok req_no_name db_ann) = db_ann ∧
  trace (post_book env_ok req_no_name db_ann) = [].
Proof.
  assert (missing_or_empty (q_lineUserId req_no_name) ∨
          missing_or_empty (q_name req_no_name) ∨
          missing_or_empty (q_date req_no_name) ∨
          missing_or_empty (q_time req_no_name)) as H.
  { right; left. right. reflexivity. }
  split; [exact H|].
  destruct (validation_precedence env_ok req_no_name db_ann H)
    as (H1 & H2 & H3 & _).
  auto.
Defined.

(** C3 — SlotFull, sequentially: a request with the four required fields
    non-empty, whose COUNT query succeeds and finds at least
    [CAPACITY_PER_SLOT] bookings for its [(date, time)], is answered 409
    "slot is full"; the table is left as it was and the only effect is the
    COUNT query itself: no INSERT, no push message. *)
Theorem slot_full_no_side_effects e q db :
  complete q →
  get_err e = false →
  count_slot (or_empty (q_date q)) (or_empty (q_time q)) (rows db)
    >= CAPACITY_PER_SLOT →
  resp (post_book e q db) = Error 409 "slot is full" ∧
  db_after (post_book e q db) = db ∧
  trace (post_book e q db)
    = [DbGetCount (or_empty (q_date q)) (or_empty (q_time q))].
Proof.
  intros Hq He Hc. by rewrite post_book_full.
Qed.

Lemma slot_full_no_side_effects_witness :
  complete req_bob ∧
  get_err env_ok = false ∧
  count_slot "2024-01-01" "09:00" (rows db_ann) >= CAPACITY_PER_SLOT ∧
  resp (post_book env_ok req_bob db_ann) = Error 409 "slot is full" ∧
  db_after (post_book env_ok req_bob db_ann) = db_ann ∧
  trace (post_book env_ok req_bob db_ann)
    = [DbGetCount "2024-01-01" "09:00"].
Proof.
  assert (complete req_bob) as Hq by (repeat split).
  assert (count_slot "2024-01-01" "09:00" (rows db_ann) >= CAPACITY_PER_SLOT)
    as Hc by (vm_compute; discriminate).
  split; [exact Hq|]. split; [reflexivity|]. split; [exact Hc|].
  exact (slot_full_no_side_effects env_ok req_bob db_ann Hq eq_refl Hc).
Defined.

(** Up to 2^53 a row id and the JavaScript number read from [this.lastID]
    are the same thing; just beyond they are not. *)
Lemma js_number_exact i :
  Z.abs i ≤ MAX_SAFE_INTEGER + 1 → js_number i = i.
Proof.
  intros Hi. unfold js_number.
  by destruct (Z.leb_spec (Z.abs i) (MAX_SAFE_INTEGER + 1)); [|lia].
Qed.

Lemma js_number_rounds :
  js_number (MAX_SAFE_INTEGER + 2) = MAX_SAFE_INTEGER + 1 ∧
  js_number (MAX_SAFE_INTEGER + 4) = MAX_SAFE_INTEGER + 5.
Proof. split; reflexivity. Qed.

Lemma max_rowid_nonneg l : 0 ≤ max_rowid l.
Proof. induction l as [|x l IH]; simpl; lia. Qed.

Lemma next_id_pos db : 0 < next_id db.
Proof. pose proof (max_rowid_nonneg (rows db)). unfold next_id. lia. Qed.

Lemma max_rowid_snoc l b : max_rowid (l ++ [b]) = Z.max (max_rowid l) (id b).
Proof.
  induction l as [|x l IH]; simpl.
  - pose proof (max_rowid_nonneg []). lia.
  - rewrite IH. lia.
Qed.

(** After an insert the next row id is the next integer. *)
Lemma next_id_after_insert db b :
  id b = next_id db →
  next_id {| rows := rows db ++ [b]; seq := next_id db |} = next_id db + 1.
Proof.
  intros Hb. unfold next_id at 1. cbn [rows seq].
  rewrite max_rowid_snoc, Hb.
  pose proof (max_rowid_nonneg (rows db)). unfold next_id. lia.
Qed.

(** Within the exact range the two INSERTs are one. *)
Lemma insert_booking_js_exact u n d t nt c db :
  next_id db ≤ MAX_SAFE_INTEGER + 1 →
  insert_booking_js u n d t nt c db = Some (insert_booking u n d t nt c db).
Proof.
  intros Hn. unfold insert_booking_js, insert_booking.
  pose proof (next_id_pos db).
  destruct (Z.ltb_spec MAX_ROWID (next_id db)) as [Hbig|_].
  { unfold MAX_ROWID, MAX_SAFE_INTEGER in *. lia. }
  rewrite js_number_exact; [done|]. lia.
Qed.

(** C8 — Shape of a committed booking, for tables whose next row id is at
    most [MAX_SAFE_INTEGER] (2^53 - 1), the range in which [this.lastID],
    a JavaScript number, is the row id itself: when the answer is 201
    with body [b], then [b.id] is the id the store assigned ([next_id]),
    the INSERT as the callback reads it gives this very table and this
    very id, the id is larger than the id of every row already in the
    table and than every id handed out before, [b] is the row appended to
    the table, [b.status] is CONFIRMED, [b.note] is the empty string when
    the request has no note, a table holding only CONFIRMED rows still
    does afterwards, and the next booking that succeeds gets the next,
    larger id, again exactly. *)
Theorem committed_booking_shape e q db b :
  next_id db ≤ MAX_SAFE_INTEGER →
  resp (post_book e q db) = Json 201 b →
  id b = next_id db ∧
  insert_booking_js (lineUserId b) (name b) (date b) (time b) (note b)
    (createdAt b) db
  = Some (db_after (post_book e q db), id b) ∧
  (∀ r, r ∈ rows db → id r < id b) ∧
  seq db < id b ∧
  rows (db_after (post_book e q db)) = rows db ++ [b] ∧
  seq (db_after (post_book e q db)) = id b ∧
  status b = "CONFIRMED" ∧
  (q_note q = None → note b = "") ∧
  (all_confirmed (rows db) →
   all_confirmed (rows (db_after (post_book e q db)))) ∧
  (∀ e2 q2 b2,
     resp (post_book e2 q2 (db_after (post_book e q db))) = Json 201 b2 →
     id b < id b2 ∧ id b2 = id b + 1 ∧ js_number (id b2) = id b2).
Proof.
  intros Hsafe H.
  destruct (post_book_created _ _ _ _ H) as (Hq & He & Hr & Hc).
  pose proof (post_book_free e q db Hq He Hr Hc) as Heq. simpl in Heq.
  rewrite Heq in H |- *. simpl in *. injection H as <-. simpl.
  pose proof (next_id_pos db) as Hpos.
  split; [done|]. split.
  { rewrite insert_booking_js_exact; [done|]. lia. }
  split; [intros r Hr'; by apply next_id_fresh|].
  split; [apply next_id_seq|].
  split; [done|]. split; [done|]. split; [done|].
  split; [by intros ->|].
  split; [intros Hall; by apply all_confirmed_snoc|].
  intros e2 q2 b2 H2.
  destruct (post_book_created _ _ _ _ H2) as (Hq2 & He2 & Hr2 & Hc2).
  pose proof (post_book_free e2 q2 _ Hq2 He2 Hr2 Hc2) as Heq2.
  simpl in Heq2. rewrite Heq2 in H2. simpl in H2. injection H2 as <-.
  cbn [id].
  rewrite (next_id_after_insert db
             (Booking (next_id db) (or_empty (q_lineUserId q))
                (or_empty (q_name q)) (or_empty (q_date q))
                (or_empty (q_time q)) (or_empty (q_note q)) "CONFIRMED"
                (now e)) eq_refl).
  split; [lia|]. split; [done|].
  apply js_number_exact. lia.
Qed.

Lemma committed_booking_shape_witness :
  next_id empty_db ≤ MAX_SAFE_INTEGER ∧
  resp (post_book env_ok req_ann empty_db)
    = Json 201 (Booking 1 "Uann" "Ann" "2024-01-01" "09:00" "" "CONFIRMED"
                  "2024-01-01T08:00:00.000Z") ∧
  insert_booking_js "Uann" "Ann" "2024-01-01" "09:00" ""
    "2024-01-01T08:00:00.000Z" empty_db
  = Some (db_ann, 1) ∧
  rows db_ann
    = [Booking 1 "Uann" "Ann" "2024-01-01" "09:00" "" "CONFIRMED"
         "2024-01-01T08:00:00.000Z"].
Proof.
  assert (next_id empty_db ≤ MAX_SAFE_INTEGER) as Hsafe
    by (vm_compute; discriminate).
  split; [exact Hsafe|]. split; [reflexivity|].
  destruct (committed_booking_shape env_ok req_ann empty_db _ Hsafe eq_refl)
    as (_ & Hjs & _ & _ & Hrows & _).
  split; [exact Hjs | exact Hrows].
Defined.

Ltac no_push Hev Hpush :=
  repeat (apply elem_of_cons in Hev as [-> | Hev]; [by simpl in Hpush|]);
  by apply elem_of_nil in Hev.

(** C7 — Notification isolation: (1) whether the push message is delivered
    or rejected changes neither the response nor the table; (2) a push
    message occurs in the effects of a request only when the answer is 201
    and the booking is in the table, and it comes after the INSERT;
    (3) when the delivery is rejected, a request that finds a free slot is
    still answered 201 with the committed booking, its id assigned and its
    status CONFIRMED, the rejection being only logged. *)
Theorem notification_isolation e q db :
  (∀ p,
     resp (post_book (set_push_rejects p e) q db) = resp (post_book e q db) ∧
     db_after (post_book (set_push_rejects p e) q db)
       = db_after (post_book e q db)) ∧
  (∀ ev, ev ∈ trace (post_book e q db) → is_push ev →
     ∃ b post,
       resp (post_book e q db) = Json 201 b ∧
       rows (db_after (post_book e q db)) = rows db ++ [b] ∧
       trace (post_book e q db)
         = [DbGetCount (date b) (time b);
            DbRunInsert (lineUserId b) (name b) (date b) (time b) (note b)
              (createdAt b)] ++ ev :: post ∧
       ∀ ev', ev' ∈ post → ¬ is_push ev') ∧
  (complete q → get_err e = false → run_err e = false →
   count_slot (or_empty (q_date q)) (or_empty (q_time q)) (rows db)
     < CAPACITY_PER_SLOT →
   ∃ b,
     resp (post_book (set_push_rejects true e) q db) = Json 201 b ∧
     id b = next_id db ∧ status b = "CONFIRMED" ∧
     rows (db_after (post_book (set_push_rejects true e) q db))
       = rows db ++ [b] ∧
     ConsoleError ∈ trace (post_book (set_push_rejects true e) q db)).
Proof.
  split; [|split].
  - intros p. unfold post_book, set_push_rejects. simpl.
    repeat case_match; simplify_eq; done.
  - intros ev Hev Hpush.
    unfold post_book in Hev |- *.
    destruct (negb (truthy (q_lineUserId q)) || negb (truthy (q_name q))
              || negb (truthy (q_date q)) || negb (truthy (q_time q)));
      simpl in *; [no_push Hev Hpush|].
    destruct (get_err e); simpl in *; [no_push Hev Hpush|].
    destruct (_ >=? _)%Z; simpl in *; [no_push Hev Hpush|].
    destruct (run_err e); simpl in *; [no_push Hev Hpush|].
    unfold push_confirmation in *.
    apply elem_of_cons in Hev as [-> | Hev]; [by simpl in Hpush|].
    apply elem_of_cons in Hev as [-> | Hev]; [by simpl in Hpush|].
    apply elem_of_cons in Hev as [-> | Hev];
      [|destruct (push_rejects e); no_push Hev Hpush].
    eexists _, (if push_rejects e then [ConsoleError] else []).
    simpl. split; [reflexivity|]. split; [reflexivity|].
    split; [reflexivity|].
    intros ev' Hev' Hpush'. destruct (push_rejects e); no_push Hev' Hpush'.
  - intros Hq He Hr Hc.
    pose proof (post_book_free (set_push_rejects true e) q db Hq He Hr Hc)
      as Heq.
    simpl in Heq. rewrite Heq. simpl.
    eexists. repeat split. set_solver.
Qed.

Lemma notification_isolation_witness :
  (complete req_ann ∧ get_err env_push_fails = false ∧
   run_err env_push_fails = false ∧
   count_slot "2024-01-01" "09:00" (rows empty_db) < CAPACITY_PER_SLOT) ∧
  ∃ b,
    resp (post_book env_push_fails req_ann empty_db) = Json 201 b ∧
    id b = 1 ∧ status b = "CONFIRMED" ∧
    rows (db_after (post_book env_push_fails req_ann empty_db)) = [b].
Proof.
  assert (complete req_ann) as Hq by (repeat split).
  assert (count_slot "2024-01-01" "09:00" (rows empty_db) < CAPACITY_PER_SLOT)
    as Hc by reflexivity.
  split; [by repeat split|].
  destruct (proj2 (proj2 (notification_isolation env_push_fails req_ann
                            empty_db)) Hq eq_refl eq_refl Hc)
    as (b & H1 & H2 & H3 & H4 & _).
  exists b. auto.
Defined.

(** C2 — counterexample: ["25:99"] is not a label of [TIME_SLOTS], yet the
    request is answered 201 and a booking with that time is committed. *)
Lemma unknown_time_is_committed :
  ("25:99" ∉ TIME_SLOTS) ∧
  q_time req_odd_time = Some "25:99" ∧
  resp (post_book env_ok req_odd_time empty_db)
    = Json 201 (Booking 1 "Uann" "Ann" "2024-01-01" "25:99" "" "CONFIRMED"
                  "2024-01-01T08:00:00.000Z") ∧
  rows (db_after (post_book env_ok req_odd_time empty_db))
    = [Booking 1 "Uann" "Ann" "2024-01-01" "25:99" "" "CONFIRMED"
         "2024-01-01T08:00:00.000Z"].
Proof.
  split; [|by repeat split].
  apply (bool_decide_unpack _). vm_compute. exact I.
Qed.

(** C2 — as the handler behaves: the time of a request is never compared
    with [TIME_SLOTS].  A request whose time is not a catalog label and
    whose four required fields are non-empty is handled like any other
    slot of capacity [CAPACITY_PER_SLOT]: while fewer than that many
    bookings exist for its [(date, time)] it is answered 201 and a booking
    with that time is appended to the table; otherwise it is answered 409
    and nothing is committed (database errors apart). *)
Theorem unknown_time_is_an_ordinary_slot e q db :
  or_empty (q_time q) ∉ TIME_SLOTS →
  complete q → get_err e = false → run_err e = false →
  (count_slot (or_empty (q_date q)) (or_empty (q_time q)) (rows db)
     < CAPACITY_PER_SLOT →
   ∃ b, resp (post_book e q db) = Json 201 b ∧
        time b = or_empty (q_time q) ∧
        rows (db_after (post_book e q db)) = rows db ++ [b]) ∧
  (count_slot (or_empty (q_date q)) (or_empty (q_time q)) (rows db)
     >= CAPACITY_PER_SLOT →
   resp (post_book e q db) = Error 409 "slot is full" ∧
   db_after (post_book e q db) = db).
Proof.
  intros _ Hq He Hr. split; intros Hc.
  - pose proof (post_book_free e q db Hq He Hr Hc) as Heq.
    simpl in Heq. rewrite Heq. simpl. eexists. repeat split.
  - by rewrite post_book_full.
Qed.

Lemma unknown_time_is_an_ordinary_slot_witness :
  ((or_empty (q_time req_odd_time) ∉ TIME_SLOTS) ∧ complete req_odd_time ∧
   count_slot "2024-01-01" "25:99" (rows empty_db) < CAPACITY_PER_SLOT) ∧
  ∃ b, resp (post_book env_ok req_odd_time empty_db) = Json 201 b ∧
       time b = "25:99" ∧
       rows (db_after (post_book env_ok req_odd_time empty_db)) = [b].
Proof.
  assert (or_empty (q_time req_odd_time) ∉ TIME_SLOTS) as Ht.
  { apply (bool_decide_unpack _). vm_compute. exact I. }
  assert (complete req_odd_time) as Hq by (repeat split).
  assert (count_slot "2024-01-01" "25:99" (rows empty_db) < CAPACITY_PER_SLOT)
    as Hc by reflexivity.
  split; [by repeat split|].
  exact (proj1 (unknown_time_is_an_ordinary_slot env_ok req_odd_time empty_db
                  Ht Hq eq_refl eq_refl) Hc).
Defined.

(** ** The event loop *)

(** A request that runs with no other request in flight behaves as
    [post_book] says: its five pieces, run back to back, give the response,
    the table and the effects of the handler. *)
Lemma run_alone e q db :
  run (Server db [Received e q] []) [0; 0; 0; 0; 0]%nat =
  Server (db_after (post_book e q db)) [Responded (resp (post_book e q db))]
    (trace (post_book e q db)).
Proof.
  unfold run, post_book. simpl foldl. unfold step at 5. simpl.
  destruct (negb (truthy (q_lineUserId q)) || negb (truthy (q_name q))
            || negb (truthy (q_date q)) || negb (truthy (q_time q)));
    [reflexivity|].
  unfold step at 4. simpl.
  destruct (get_err e); [reflexivity|].
  unfold step at 3. simpl.
  destruct (_ >=? _)%Z; [reflexivity|].
  unfold step at 2. simpl.
  destruct (run_err e); reflexivity.
Qed.

(** A piece either leaves the table alone or appends one CONFIRMED row
    with the next id. *)
Lemma step_task_rows t db :
  rows (step_task t db).1.2 = rows db ∨
  ∃ b, rows (step_task t db).1.2 = rows db ++ [b] ∧
       status b = "CONFIRMED" ∧ id b = next_id db.
Proof.
  destruct t as [e q|e q|e q [c|]|e q c|e q c [i|]|r]; simpl;
    repeat case_match; simpl; auto.
  right. eexists. repeat split.
Qed.

Lemma step_store s i :
  rows (store (step s i)) = rows (store s) ∨
  ∃ b, rows (store (step s i)) = rows (store s) ++ [b] ∧
       status b = "CONFIRMED" ∧ id b = next_id (store s).
Proof.
  unfold step. destruct (tasks s !! i) as [t|]; [|by left].
  pose proof (step_task_rows t (store s)) as H.
  destruct (step_task t (store s)) as [[t' db'] evs]. exact H.
Qed.

(** CONFIRMED is the only status the program ever stores. *)
Lemma reachable_all_confirmed db : reachable db → all_confirmed (rows db).
Proof.
  induction 1 as [|s i _ IH].
  - constructor.
  - destruct (step_store s i) as [-> | (b & -> & Hb & _)]; [done|].
    by apply all_confirmed_snoc.
Qed.

Lemma count_slot_snoc d t l b :
  count_slot d t (l ++ [b])
  = count_slot d t l + (if decide (in_slot d t b) then 1 else 0).
Proof.
  unfold count_slot. rewrite filter_app, length_app. simpl.
  rewrite filter_cons, filter_nil.
  destruct (decide (in_slot d t b)); simpl; lia.
Qed.

(** The handler either leaves the table alone or appends one row, to a
    slot that had room for it when it was counted. *)
Lemma post_book_db e q db :
  db_after (post_book e q db) = db ∨
  ∃ b, count_slot (date b) (time b) (rows db) < CAPACITY_PER_SLOT ∧
       rows (db_after (post_book e q db)) = rows db ++ [b].
Proof.
  unfold post_book.
  destruct (negb (truthy (q_lineUserId q)) || negb (truthy (q_name q))
            || negb (truthy (q_date q)) || negb (truthy (q_time q)));
    [by left|].
  destruct (get_err e); [by left|].
  destruct (Z.geb_spec
    (count_slot (or_empty (q_date q)) (or_empty (q_time q)) (rows db))
    CAPACITY_PER_SLOT) as [Hc|Hc]; [by left|].
  destruct (run_err e); [by left|].
  right. eexists (Booking _ _ _ _ _ _ _ _). simpl. split; [exact Hc|done].
Qed.

(** Served one after the other, requests never overbook a slot. *)
Lemma post_book_within_capacity e q db :
  within_capacity (rows db) →
  within_capacity (rows (db_after (post_book e q db))).
Proof.
  intros Hcap.
  destruct (post_book_db e q db) as [-> | (b & Hc & ->)]; [done|].
  intros d t. rewrite count_slot_snoc.
  destruct (decide _) as [[Hd Ht]|].
  - subst d t. lia.
  - specialize (Hcap d t). lia.
Qed.

Lemma serial_within_capacity (reqs : list (env * book_req)) db :
  within_capacity (rows db) →
  within_capacity
    (rows (foldl (fun db r => db_after (post_book r.1 r.2 db)) db reqs)).
Proof.
  revert db. induction reqs as [|r reqs IH]; intros db Hcap; simpl.
  - done.
  - apply IH. by apply post_book_within_capacity.
Qed.

(** Row ids grow along the table, so no two rows share one. *)
Lemma reachable_ids_increasing db :
  reachable db → StronglySorted Z.lt (id <$> rows db).
Proof.
  induction 1 as [|s i _ IH]; [constructor|].
  destruct (step_store s i) as [-> | (b & -> & _ & Hb)]; [done|].
  rewrite fmap_app. apply StronglySorted_app_2; [|done|by repeat constructor].
  intros x1 x2 (r & -> & Hr)%list_elem_of_fmap ->%list_elem_of_singleton.
  rewrite Hb. by apply next_id_fresh.
Qed.

(** The pieces of a request that meets no error and finds room. *)
Lemma step_0 db t ts lg :
  step (Server db (t :: ts) lg) 0
  = Server (step_task t db).1.2 ((step_task t db).1.1 :: ts)
      (lg ++ (step_task t db).2).
Proof. unfold step. simpl. by destruct (step_task t db) as [[? ?] ?]. Qed.

Lemma step_1 db t0 t ts lg :
  step (Server db (t0 :: t :: ts) lg) 1
  = Server (step_task t db).1.2 (t0 :: (step_task t db).1.1 :: ts)
      (lg ++ (step_task t db).2).
Proof. unfold step. simpl. by destruct (step_task t db) as [[? ?] ?]. Qed.

Lemma step_task_received e q db :
  complete q →
  step_task (Received e q) db
  = (CountQueued e q, db,
     [DbGetCount (or_empty (q_date q)) (or_empty (q_time q))]).
Proof. intros Hq. simpl. by rewrite complete_guard. Qed.

Lemma step_task_count e q db :
  get_err e = false →
  step_task (CountQueued e q) db
  = (CountDone e q
       (Some (count_slot (or_empty (q_date q)) (or_empty (q_time q))
                (rows db))), db, []).
Proof. intros He. simpl. by rewrite He. Qed.

Lemma step_task_counted e q c db :
  c < CAPACITY_PER_SLOT →
  step_task (CountDone e q (Some c)) db
  = (InsertQueued e q (now e), db,
     [DbRunInsert (or_empty (q_lineUserId q)) (or_empty (q_name q))
        (or_empty (q_date q)) (or_empty (q_time q)) (or_empty (q_note q))
        (now e)]).
Proof.
  intros Hc. simpl.
  assert ((c >=? CAPACITY_PER_SLOT)%Z = false) as ->; [|done].
  rewrite Z.geb_leb. apply Z.leb_gt. lia.
Qed.

Lemma step_task_insert e q c db :
  run_err e = false →
  step_task (InsertQueued e q c) db
  = (InsertDone e q c (Some (next_id db)),
     {| rows := rows db ++
                [Booking (next_id db) (or_empty (q_lineUserId q))
                   (or_empty (q_name q)) (or_empty (q_date q))
                   (or_empty (q_time q)) (or_empty (q_note q))
                   "CONFIRMED" c];
        seq := next_id db |}, []).
Proof. intros He. simpl. by rewrite He. Qed.

Lemma step_task_inserted e q c i db :
  step_task (InsertDone e q c (Some i)) db
  = (Responded (Json 201 (Booking i (or_empty (q_lineUserId q))
                            (or_empty (q_name q)) (or_empty (q_date q))
                            (or_empty (q_time q)) (or_empty (q_note q))
                            "CONFIRMED" c)),
     db,
     push_confirmation e (or_empty (q_lineUserId q)) (or_empty (q_name q))
       (or_empty (q_date q)) (or_empty (q_time q)) i).
Proof. reflexivity. Qed.

(** X21 — The race in general: whenever two complete requests for the
    same slot meet no database error, find room for at least one more
    booking when they are counted, and their pieces alternate, both are
    answered 201 and the slot's count grows by two. *)
Lemma race_inserts_both e1 e2 q1 q2 db :
  complete q1 → complete q2 →
  or_empty (q_date q2) = or_empty (q_date q1) →
  or_empty (q_time q2) = or_empty (q_time q1) →
  get_err e1 = false → run_err e1 = false →
  get_err e2 = false → run_err e2 = false →
  count_slot (or_empty (q_date q1)) (or_empty (q_time q1)) (rows db)
    < CAPACITY_PER_SLOT →
  let s := run (Server db [Received e1 q1; Received e2 q2] [])
             [0; 1; 0; 1; 0; 1; 0; 1; 0; 1]%nat in
  (∃ b1 b2, tasks s = [Responded (Json 201 b1); Responded (Json 201 b2)]) ∧
  count_slot (or_empty (q_date q1)) (or_empty (q_time q1)) (rows (store s))
  = count_slot (or_empty (q_date q1)) (or_empty (q_time q1)) (rows db) + 2.
Proof.
  intros Hq1 Hq2 Hd Ht Hg1 Hr1 Hg2 Hr2 Hc.
  unfold run. cbn [foldl].
  rewrite step_0, step_task_received by done. cbn [fst snd].
  rewrite step_1, step_task_received by done. cbn [fst snd].
  rewrite step_0, step_task_count by done. cbn [fst snd].
  rewrite step_1, step_task_count by done. cbn [fst snd].
  rewrite step_0, step_task_counted by done. cbn [fst snd].
  rewrite step_1, step_task_counted by (cbn [rows]; by rewrite Hd, Ht).
  cbn [fst snd].
  rewrite step_0, step_task_insert by done. cbn [fst snd].
  rewrite step_1, step_task_insert by done. cbn [fst snd].
  rewrite step_0, step_task_inserted. cbn [fst snd].
  rewrite step_1, step_task_inserted. cbn [fst snd store tasks rows].
  split; [by eexists _, _|].
  rewrite !count_slot_snoc. cbn [date time].
  rewrite decide_True by done.
  rewrite decide_True by done. lia.
Qed.

(** C1 — the race, on the code: two requests of distinct users for the
    slot 09:00 of 2024-01-01 arrive at an empty table; the event loop runs
    their pieces alternately, so that both COUNT queries run before either
    INSERT.  Both requests are answered 201, with the ids 1 and 2, and the
    table then holds two CONFIRMED bookings for the slot although its
    capacity is 1. *)
Theorem race_overbooks :
  let s := run (Server empty_db [Received env_ok req_ann;
                                 Received env_ok req_bob] [])
             [0; 1; 0; 1; 0; 1; 0; 1; 0; 1]%nat in
  tasks s
    = [Responded (Json 201 (Booking 1 "Uann" "Ann" "2024-01-01" "09:00" ""
                              "CONFIRMED" "2024-01-01T08:00:00.000Z"));
       Responded (Json 201 (Booking 2 "Ubob" "Bob" "2024-01-01" "09:00"
                              "first visit" "CONFIRMED"
                              "2024-01-01T08:00:00.000Z"))] ∧
  count_slot "2024-01-01" "09:00" (rows (store s)) = 2 ∧
  count_confirmed "2024-01-01" "09:00" (rows (store s)) = 2 ∧
  CAPACITY_PER_SLOT = 1 ∧
  ¬ within_capacity (rows (store s)).
Proof.
  repeat split. intros H.
  specialize (H "2024-01-01" "09:00"). vm_compute in H. by apply H.
Qed.

(** The same two requests, served one after the other: the second one is
    refused. *)
Lemma serial_refuses_second :
  let s := run (Server empty_db [Received env_ok req_ann;
                                 Received env_ok req_bob] [])
             [0; 0; 0; 0; 0; 1; 1; 1; 1; 1]%nat in
  tasks s
    = [Responded (Json 201 (Booking 1 "Uann" "Ann" "2024-01-01" "09:00" ""
                              "CONFIRMED" "2024-01-01T08:00:00.000Z"));
       Responded (Error 409 "slot is full")] ∧
  count_slot "2024-01-01" "09:00" (rows (store s)) = 1.
Proof. by split. Qed.

(** ** GET /api/slots *)

Section BookedMap.
Implicit Types (rs : list (string * Z)) (m : gmap string Z).

Lemma foldl_insert_notin rs m t :
  t ∉ rs.*1 → foldl (fun m r => <[r.1 := r.2]> m) m rs !! t = m !! t.
Proof.
  revert m. induction rs as [|[k c] rs IH]; intros m Ht; simpl; [done|].
  rewrite fmap_cons, not_elem_of_cons in Ht. destruct Ht as [Hk Ht].
  rewrite IH by done. simpl in *. by rewrite lookup_insert_ne.
Qed.

Lemma foldl_insert_in rs m t c :
  NoDup rs.*1 → (t, c) ∈ rs →
  foldl (fun m r => <[r.1 := r.2]> m) m rs !! t = Some c.
Proof.
  revert m. induction rs as [|[k c'] rs IH]; intros m Hnd Hin; simpl.
  - by apply elem_of_nil in Hin.
  - rewrite fmap_cons in Hnd. apply NoDup_cons in Hnd as [Hk Hnd].
    apply elem_of_cons in Hin as [[= <- <-] | Hin].
    + rewrite foldl_insert_notin by done. simpl. apply lookup_insert_eq.
    + by apply IH.
Qed.
End BookedMap.

Lemma filter_time_of_date d t (l : list booking) :
  filter (fun b => time b = t) (filter (fun b => date b = d) l)
  = filter (in_slot d t) l.
Proof.
  rewrite list_filter_filter. apply list_filter_iff.
  intros b. unfold in_slot. tauto.
Qed.

Lemma group_by_time_keys d (l : list booking) :
  (group_by_time d l).*1 = remove_dups (time <$> filter (fun b => date b = d) l).
Proof.
  unfold group_by_time. rewrite <- list_fmap_compose.
  apply list_fmap_id.
Qed.

Lemma count_slot_pos d t (l : list booking) :
  0 < count_slot d t l ↔ t ∈ time <$> filter (fun b => date b = d) l.
Proof.
  unfold count_slot. rewrite <- filter_time_of_date.
  rewrite list_elem_of_fmap. split.
  - intros H.
    destruct (filter (fun b => time b = t) (filter (fun b => date b = d) l))
      as [|b l'] eqn:E; [simpl in H; lia|].
    assert (b ∈ filter (fun b => time b = t) (filter (fun b => date b = d) l))
      as Hb by (rewrite E; left).
    apply list_elem_of_filter in Hb as [Ht Hb]. by exists b.
  - intros (b & -> & Hb).
    assert (b ∈ filter (fun b' => time b' = time b)
                  (filter (fun b => date b = d) l)) as Hb'
      by (by apply list_elem_of_filter).
    destruct (filter _ (filter _ l)); [by apply elem_of_nil in Hb'|].
    simpl. lia.
Qed.

(** What the handler reads from [bookedMap] at a label. *)
Lemma bookedMap_lookup d l t :
  build_bookedMap (group_by_time d l) !! t
  = if decide (count_slot d t l = 0) then None else Some (count_slot d t l).
Proof.
  unfold build_bookedMap.
  destruct (decide (t ∈ time <$> filter (fun b => date b = d) l)) as [Hin|Hout].
  - pose proof (proj2 (count_slot_pos d t l) Hin).
    rewrite decide_False by lia.
    apply foldl_insert_in.
    + rewrite group_by_time_keys. apply NoDup_remove_dups.
    + unfold group_by_time. apply list_elem_of_fmap.
      exists t. split.
      * unfold count_slot. by rewrite filter_time_of_date.
      * by apply elem_of_remove_dups.
  - assert (count_slot d t l = 0) as Hz.
    { destruct (count_slot_pos d t l) as [Hpos _].
      assert (¬ 0 < count_slot d t l) by (intros ?; by apply Hout, Hpos).
      unfold count_slot in *. lia. }
    rewrite decide_True by done.
    rewrite foldl_insert_notin; [apply lookup_empty|].
    rewrite group_by_time_keys. by rewrite elem_of_remove_dups.
Qed.

Lemma slot_of_bookedMap d l t :
  slot_of (build_bookedMap (group_by_time d l)) t
  = spec_slot (count_slot d t l) t.
Proof.
  unfold slot_of, spec_slot. rewrite bookedMap_lookup.
  assert (or_zero (if decide (count_slot d t l = 0) then None
                   else Some (count_slot d t l)) = count_slot d t l) as ->.
  { destruct (decide _) as [->|Hne]; simpl; [done|].
    by apply Z.eqb_neq in Hne as ->. }
  f_equal. destruct (Z.leb_spec (CAPACITY_PER_SLOT - count_slot d t l) 0).
  - by rewrite bool_decide_eq_true_2.
  - rewrite bool_decide_eq_false_2; [done | lia].
Qed.

Lemma get_slots_ok d db :
  d ≠ "" →
  get_slots false (Some d) db
  = Outcome
      (Json 200 (SlotsBody d
         ((fun t => spec_slot (count_slot d t (rows db)) t) <$> TIME_SLOTS)))
      db [DbAllGroup d].
Proof.
  intros Hd. unfold get_slots. rewrite truthy_some by done. simpl negb.
  cbv iota. simpl or_empty. do 3 f_equal.
  apply list_fmap_ext. intros _ t _. apply slot_of_bookedMap.
Qed.

Lemma count_confirmed_all d t l :
  all_confirmed l → count_confirmed d t l = count_slot d t l.
Proof.
  intros Hall. unfold count_confirmed, count_slot. do 2 f_equal.
  induction Hall as [|b l Hb Hall IH]; [done|].
  rewrite !filter_cons, IH.
  destruct (decide (in_slot d t b)).
  - by rewrite decide_True.
  - rewrite decide_False; [done | tauto].
Qed.

(** C4 — Availability formula: for a date [d] and a table whose rows are
    all CONFIRMED (every table the program produces is), [GET /api/slots]
    answers 200 with one entry per label of [TIME_SLOTS], in that order,
    where [booked] is the number of CONFIRMED bookings for [(d, time)],
    [capacity] is [CAPACITY_PER_SLOT], [available = capacity - booked]
    (possibly zero or negative) and [isFull] holds exactly when
    [available <= 0]. *)
Theorem availability_formula d db :
  d ≠ "" → all_confirmed (rows db) →
  ∃ slots,
    resp (get_slots false (Some d) db) = Json 200 (SlotsBody d slots) ∧
    db_after (get_slots false (Some d) db) = db ∧
    s_time <$> slots = TIME_SLOTS ∧
    Forall (fun v =>
              s_booked v = count_confirmed d (s_time v) (rows db) ∧
              s_capacity v = CAPACITY_PER_SLOT ∧
              s_available v = s_capacity v - s_booked v ∧
              (s_isFull v = true ↔ s_available v ≤ 0)) slots.
Proof.
  intros Hd Hall. rewrite get_slots_ok by done.
  exists ((fun t => spec_slot (count_slot d t (rows db)) t) <$> TIME_SLOTS).
  split; [reflexivity|]. split; [reflexivity|].
  split; [reflexivity|].
  apply Forall_fmap, Forall_forall. intros t _. simpl.
  rewrite count_confirmed_all by done.
  repeat split; try done.
  - by intros ?%bool_decide_eq_true.
  - intros ?. by apply bool_decide_eq_true_2.
Qed.

Lemma availability_formula_witness :
  ("2024-01-01" ≠ "" ∧ all_confirmed (rows db_ann)) ∧
  ∃ slots,
    resp (get_slots false (Some "2024-01-01") db_ann)
      = Json 200 (SlotsBody "2024-01-01" slots) ∧
    s_time <$> slots = TIME_SLOTS ∧
    slots !! 0%nat = Some (SlotView "09:00" 1 1 0 true) ∧
    slots !! 1%nat = Some (SlotView "09:30" 1 0 1 false).
Proof.
  assert ("2024-01-01" ≠ "") as Hd by discriminate.
  assert (all_confirmed (rows db_ann)) as Hall by (by repeat constructor).
  split; [by split|].
  destruct (availability_formula "2024-01-01" db_ann Hd Hall)
    as (slots & Hresp & _ & Htimes & _).
  exists slots. split; [exact Hresp|]. split; [exact Htimes|].
  assert (resp (get_slots false (Some "2024-01-01") db_ann)
          = Json 200 (SlotsBody "2024-01-01"
              (slot_of (build_bookedMap
                          (group_by_time "2024-01-01" (rows db_ann)))
                 <$> TIME_SLOTS))) as Hres by reflexivity.
  rewrite Hresp in Hres. injection Hres as ->.
  split; vm_compute; reflexivity.
Defined.

Lemma count_slot_catalog_rows d t (l : list booking) :
  t ∈ TIME_SLOTS →
  count_slot d t (filter (fun b => time b ∈ TIME_SLOTS) l) = count_slot d t l.
Proof.
  intros Ht. unfold count_slot. do 2 f_equal.
  rewrite list_filter_filter. apply list_filter_iff.
  intros b. unfold in_slot. split; [tauto|].
  intros [Hd Hb]. split; [done|]. by rewrite Hb.
Qed.

Lemma count_slot_remove d t (l1 l2 : list booking) b :
  time b ≠ t → count_slot d t (l1 ++ b :: l2) = count_slot d t (l1 ++ l2).
Proof.
  intros Hb. unfold count_slot. do 2 f_equal.
  rewrite !filter_app, filter_cons.
  rewrite decide_False; [done|]. unfold in_slot. tauto.
Qed.

(** A 200 answer of [GET /api/slots] comes from the last branch. *)
Lemma get_slots_200 err qd db body :
  resp (get_slots err qd db) = Json 200 body →
  err = false ∧ ∃ d, qd = Some d ∧ d ≠ "".
Proof.
  unfold get_slots. destruct (truthy qd) eqn:Hq; simpl; [|discriminate].
  destruct err; [discriminate|]. intros _. split; [done|].
  by apply truthy_true_iff.
Qed.

(** C9 — Shape of the availability view: whenever [GET /api/slots] answers
    200, its [slots] array carries exactly the 13 labels of [TIME_SLOTS],
    in catalog order; and the answer is the one computed from the rows
    whose time is a catalog label only: rows with any other time, although
    stored in the table, contribute nothing to it (removing such a row
    from the table leaves the answer unchanged). *)
Theorem availability_view_shape err qd db body :
  resp (get_slots err qd db) = Json 200 body →
  s_time <$> sb_slots body = TIME_SLOTS ∧
  length (sb_slots body) = 13%nat ∧
  (∀ sq,
     resp (get_slots err qd
             (Database (filter (fun b => time b ∈ TIME_SLOTS) (rows db)) sq))
     = Json 200 body) ∧
  (∀ l1 b l2 sq,
     rows db = l1 ++ b :: l2 → time b ∉ TIME_SLOTS →
     resp (get_slots err qd (Database (l1 ++ l2) sq)) = Json 200 body).
Proof.
  intros H.
  destruct (get_slots_200 _ _ _ _ H) as (-> & d & -> & Hd).
  rewrite get_slots_ok in H by done. cbn [resp] in H.
  assert (body = SlotsBody d
            ((fun t => spec_slot (count_slot d t (rows db)) t) <$> TIME_SLOTS))
    as -> by congruence.
  clear H.
  split; [reflexivity|]. split; [reflexivity|]. split.
  - intros sq. rewrite get_slots_ok by done. cbn [resp rows]. do 2 f_equal.
    apply list_fmap_ext. intros i t Ht.
    rewrite count_slot_catalog_rows; [done|].
    by eapply list_elem_of_lookup_2.
  - intros l1 b l2 sq Hrows Hb. rewrite get_slots_ok by done.
    cbn [resp rows]. do 2 f_equal. apply list_fmap_ext. intros i t Ht.
    rewrite Hrows, count_slot_remove; [done|].
    intros <-. apply Hb. by eapply list_elem_of_lookup_2.
Qed.

Lemma availability_view_shape_witness :
  ∃ body,
    resp (get_slots false (Some "2024-01-01") db_odd) = Json 200 body ∧
    (∃ b, b ∈ rows db_odd ∧ date b = "2024-01-01" ∧ time b = "25:99") ∧
    s_time <$> sb_slots body = TIME_SLOTS ∧
    resp (get_slots false (Some "2024-01-01") db_ann) = Json 200 body.
Proof.
  eexists. split; [reflexivity|]. split.
  { eexists (Booking 2 _ _ _ _ _ _ _). split; [|by split].
    right. left. }
  pose proof (availability_view_shape false (Some "2024-01-01") db_odd _
                eq_refl) as (H1 & _ & _ & H4).
  split; [exact H1|].
  refine (H4 (rows db_ann) _ [] 1 eq_refl _).
  apply (bool_decide_unpack _). vm_compute. exact I.
Defined.

(** ** The order of [ORDER BY date, time] *)

Lemma ascii_compare_refl a : Ascii.compare a a = Eq.
Proof. unfold Ascii.compare. apply N.compare_refl. Qed.

Lemma string_compare_refl s : String.compare s s = Eq.
Proof.
  induction s as [|a s IH]; simpl; [done|].
  by rewrite ascii_compare_refl.
Qed.

Lemma ascii_compare_lt_trans a b c :
  Ascii.compare a b = Lt → Ascii.compare b c = Lt → Ascii.compare a c = Lt.
Proof.
  unfold Ascii.compare. rewrite !N.compare_lt_iff. apply N.lt_trans.
Qed.

Lemma string_compare_lt_trans s1 s2 s3 :
  String.compare s1 s2 = Lt → String.compare s2 s3 = Lt →
  String.compare s1 s3 = Lt.
Proof.
  revert s2 s3. induction s1 as [|a s1 IH]; intros [|b s2] [|c s3];
    simpl; try done.
  destruct (Ascii.compare a b) eqn:Hab; try done;
    destruct (Ascii.compare b c) eqn:Hbc; try done.
  - apply Ascii.compare_eq_iff in Hab as ->.
    apply Ascii.compare_eq_iff in Hbc as ->.
    rewrite ascii_compare_refl. apply IH.
  - apply Ascii.compare_eq_iff in Hab as ->. by rewrite Hbc.
  - apply Ascii.compare_eq_iff in Hbc as <-. by rewrite Hab.
  - by rewrite (ascii_compare_lt_trans a b c).
Qed.

Lemma string_compare_gt_lt s1 s2 :
  String.compare s1 s2 = Gt ↔ String.compare s2 s1 = Lt.
Proof.
  rewrite (String.compare_antisym s1 s2).
  destruct (String.compare s2 s1); simpl; split; congruence.
Qed.

Global Instance str_le_trans : Transitive str_le.
Proof.
  unfold str_le. intros s1 s2 s3 H12 H23 H13.
  apply string_compare_gt_lt in H13.
  destruct (String.compare s1 s2) eqn:E12; [| |done].
  - apply String.compare_eq_iff in E12 as ->.
    by apply string_compare_gt_lt in H13.
  - pose proof (string_compare_lt_trans _ _ _ H13 E12) as H32.
    by apply string_compare_gt_lt in H32.
Qed.

Global Instance str_le_antisym : AntiSymm (=) str_le.
Proof.
  unfold str_le. intros s1 s2 H12 H21.
  destruct (String.compare s1 s2) eqn:E; [|exfalso|done].
  - by apply String.compare_eq_iff.
  - by apply string_compare_gt_lt in E.
Qed.

Lemma str_lt_irrefl s : ¬ str_lt s s.
Proof. unfold str_lt. by rewrite string_compare_refl. Qed.

Global Instance key_le_trans : Transitive key_le.
Proof.
  unfold key_le, str_lt. intros [d1 t1] [d2 t2] [d3 t3]; simpl.
  intros [H12 | [-> H12]] [H23 | [-> H23]].
  - left. by eapply string_compare_lt_trans.
  - by left.
  - by left.
  - right. split; [done|]. by etrans.
Qed.

Global Instance key_le_antisym : AntiSymm (=) key_le.
Proof.
  unfold key_le, str_lt. intros [d1 t1] [d2 t2]; simpl.
  intros [H12 | [-> H12]] [H21 | [E H21]].
  - pose proof (string_compare_lt_trans _ _ _ H12 H21) as H.
    by rewrite string_compare_refl in H.
  - subst. by rewrite string_compare_refl in H12.
  - by rewrite string_compare_refl in H21.
  - f_equal. by apply (anti_symm str_le).
Qed.

Global Instance row_le_trans : Transitive row_le.
Proof. intros a b c. unfold row_le. apply key_le_trans. Qed.

(** [row_leb] decides [row_le], and of two rows one is below the other. *)
Lemma row_leb_le a b : row_leb a b = true ↔ row_le a b.
Proof.
  unfold row_leb, row_le, key_le, key, str_lt, str_le, String.leb. simpl.
  destruct (String.compare (date a) (date b)) eqn:Ed.
  - apply String.compare_eq_iff in Ed. rewrite Ed.
    destruct (String.compare (time a) (time b)); split; try done.
    + intros _. by right.
    + intros _. by right.
    + intros [H | [_ H]]; done.
  - split; [by left | done].
  - split; [done|]. intros [? | [E _]]; [done|].
    rewrite E, string_compare_refl in Ed. done.
Qed.

Lemma row_leb_total a b : row_leb a b = false → row_le b a.
Proof.
  intros H. apply row_leb_le. revert H. unfold row_leb, String.leb.
  rewrite (String.compare_antisym (date a) (date b)).
  rewrite (String.compare_antisym (time a) (time b)).
  destruct (String.compare (date b) (date a)); simpl; try done.
  destruct (String.compare (time b) (time a)); simpl; done.
Qed.

(** ** The sorter *)

Lemma insert_row_perm x l : insert_row x l ≡ₚ x :: l.
Proof.
  induction l as [|y l IH]; simpl; [done|].
  destruct (row_leb x y); [done|].
  rewrite IH. apply perm_swap.
Qed.

Lemma order_by_perm l : order_by_date_time l ≡ₚ l.
Proof.
  induction l as [|x l IH]; simpl; [done|].
  by rewrite insert_row_perm, IH.
Qed.

Lemma insert_row_hd x y l :
  row_le y x → HdRel row_le y l → HdRel row_le y (insert_row x l).
Proof.
  intros Hyx Hl. destruct l as [|z l]; simpl.
  - by constructor.
  - destruct (row_leb x z); constructor; [done|].
    by apply HdRel_inv in Hl.
Qed.

Lemma insert_row_sorted x l :
  Sorted row_le l → Sorted row_le (insert_row x l).
Proof.
  induction 1 as [|y l Hl IH Hy]; simpl.
  - by repeat constructor.
  - destruct (row_leb x y) eqn:E.
    + constructor; [by constructor|].
      constructor. by apply row_leb_le.
    + constructor; [done|].
      apply insert_row_hd; [|done]. by apply row_leb_total.
Qed.

Lemma order_by_sorted l : StronglySorted row_le (order_by_date_time l).
Proof.
  apply Sorted_StronglySorted; [apply _|].
  induction l as [|x l IH]; simpl; [constructor|].
  by apply insert_row_sorted.
Qed.

(** Two sorted arrangements of the same rows show the same sequence of
    [(date, time)] keys. *)
Lemma sorted_keys_unique l1 l2 :
  StronglySorted row_le l1 → StronglySorted row_le l2 → l1 ≡ₚ l2 →
  key <$> l1 = key <$> l2.
Proof.
  intros H1 H2 Hp.
  apply (StronglySorted_unique key_le).
  - by apply (StronglySorted_fmap key row_le key_le).
  - by apply (StronglySorted_fmap key row_le key_le).
  - by rewrite Hp.
Qed.

(** When no two of the rows share a key, the arrangement itself is
    unique. *)
Lemma keyed_perm_unique {A B} (f : A → B) (l1 l2 : list A) :
  NoDup (f <$> l1) → l1 ≡ₚ l2 → f <$> l1 = f <$> l2 → l1 = l2.
Proof.
  revert l2. induction l1 as [|x l1 IH]; intros [|y l2] Hnd Hp Hf;
    try done.
  rewrite !fmap_cons in *. injection Hf as Hxy Hf.
  apply NoDup_cons in Hnd as [Hx Hnd].
  assert (x = y) as ->.
  { assert (y ∈ x :: l1) as Hy by (rewrite Hp; left).
    apply elem_of_cons in Hy as [-> | Hy]; [done|].
    exfalso. apply Hx. rewrite Hxy. by apply list_elem_of_fmap_2. }
  f_equal. apply IH; [done| |done].
  by apply (inj (y ::.)).
Qed.

(** ** GET /api/my-bookings and the "my queue" command *)

Lemma get_my_bookings_ok u db :
  u ≠ "" →
  get_my_bookings false (Some u) db
  = Outcome (Json 200 (select_by_user (Some u) (rows db))) db
      [DbAllUser (Some u)].
Proof.
  intros Hu. unfold get_my_bookings. by rewrite truthy_some.
Qed.

Lemma get_my_bookings_200 err u db rs :
  resp (get_my_bookings err (Some u) db) = Json 200 rs →
  rs = select_by_user (Some u) (rows db).
Proof.
  unfold get_my_bookings.
  destruct (negb (truthy (Some u))); [discriminate|].
  destruct err; [discriminate|]. simpl. congruence.
Qed.

(** C6 — Ordering of the booking list: for a non-empty user id (and a
    query that succeeds) [GET /api/my-bookings] answers 200; and whenever
    it answers 200 with the list [rs], then [rs] consists of exactly the
    rows of that user, arranged in ascending [(date, time)] order,
    whatever the order in which the rows were inserted: on any table
    holding the same rows in another order the answer shows the same
    sequence of [(date, time)] keys, and the very same list when the
    user's rows have pairwise distinct keys. *)
Theorem my_bookings_sorted u db :
  (u ≠ "" → ∃ rs, resp (get_my_bookings false (Some u) db) = Json 200 rs) ∧
  (∀ err rs,
     resp (get_my_bookings err (Some u) db) = Json 200 rs →
     rs ≡ₚ filter (fun b => lineUserId b = u) (rows db) ∧
     StronglySorted row_le rs ∧
     ∀ db' rs',
       rows db' ≡ₚ rows db →
       resp (get_my_bookings err (Some u) db') = Json 200 rs' →
       rs' ≡ₚ rs ∧
       key <$> rs' = key <$> rs ∧
       (NoDup (key <$> rs) → rs' = rs)).
Proof.
  split.
  - intros Hu. rewrite get_my_bookings_ok by done. by eexists.
  - intros err rs ->%get_my_bookings_200. simpl.
    split; [apply order_by_perm|]. split; [apply order_by_sorted|].
    intros db' rs' Hp ->%get_my_bookings_200. simpl.
    assert (order_by_date_time (filter (fun b => lineUserId b = u) (rows db'))
            ≡ₚ order_by_date_time
                 (filter (fun b => lineUserId b = u) (rows db))) as Hperm.
    { by rewrite !order_by_perm, Hp. }
    assert (key <$> order_by_date_time
                      (filter (fun b => lineUserId b = u) (rows db'))
            = key <$> order_by_date_time
                        (filter (fun b => lineUserId b = u) (rows db)))
      as Hkeys.
    { apply sorted_keys_unique; [apply order_by_sorted..|done]. }
    split; [done|]. split; [done|].
    intros Hnd. apply (keyed_perm_unique key); [|done..].
    by rewrite Hkeys.
Qed.

Lemma my_bookings_sorted_witness :
  "Uann" ≠ "" ∧
  ∃ rs,
    resp (get_my_bookings false (Some "Uann") db_week) = Json 200 rs ∧
    id <$> rows db_week = [1; 2; 3; 4] ∧
    id <$> rs = [4; 3; 1] ∧
    key <$> rs = [("2024-01-01", "09:30"); ("2024-01-01", "13:30");
                  ("2024-01-02", "10:00")] ∧
    StronglySorted row_le rs.
Proof.
  split; [discriminate|].
  eexists. split; [reflexivity|].
  split; [reflexivity|]. split; [reflexivity|]. split; [reflexivity|].
  exact (proj1 (proj2
    (proj2 (my_bookings_sorted "Uann" db_week) false _ eq_refl))).
Defined.

Lemma handleLineEvent_my_queue db_err rr ev db :
  ev_type ev = "message" → ev_message_type ev = "text" →
  trim (ev_text ev) = "คิวของฉัน" →
  handleLineEvent db_err rr ev db
  = if db_err
    then (Rejected, [DbAllUser (ev_userId ev); ConsoleError])
    else (if rr then Rejected else ResolvedReply,
          [DbAllUser (ev_userId ev);
           ReplyMessage (ev_replyToken ev)
             (queue_text (select_by_user (ev_userId ev) (rows db)))]).
Proof.
  intros H1 H2 H3. unfold handleLineEvent.
  rewrite H1, H2, H3, !String.eqb_refl. simpl.
  by destruct db_err.
Qed.

(** C10 — The chat command and the REST listing agree: for a text message
    that is the "my queue" command, sent by user [u], whenever
    [GET /api/my-bookings] for [u] answers 200 with the list [rs] on the
    same table, both handlers have issued the same query
    ([DbAllUser (Some u)]) and the text the chat handler replies is built
    from that very list [rs], row by row in the same order; for a
    non-empty [u] the REST handler does answer 200, and the list is the
    user's rows in ascending [(date, time)] order. *)
Theorem chat_and_rest_list_alike u ev db rr :
  ev_type ev = "message" → ev_message_type ev = "text" →
  trim (ev_text ev) = "คิวของฉัน" →
  ev_userId ev = Some u →
  (∀ rs,
     resp (get_my_bookings false (Some u) db) = Json 200 rs →
     trace (get_my_bookings false (Some u) db) = [DbAllUser (Some u)] ∧
     handleLineEvent false rr ev db
     = (if rr then Rejected else ResolvedReply,
        [DbAllUser (Some u);
         ReplyMessage (ev_replyToken ev) (queue_text rs)]) ∧
     (rs ≠ [] →
      queue_text rs
      = "🗓 คิวของคุณมีดังนี้" +:+ nl +:+ nl +:+
        String.concat nl (queue_line <$> rs))) ∧
  (u ≠ "" →
   ∃ rs, resp (get_my_bookings false (Some u) db) = Json 200 rs ∧
         rs ≡ₚ filter (fun b => lineUserId b = u) (rows db) ∧
         StronglySorted row_le rs).
Proof.
  intros H1 H2 H3 Hu. split.
  - intros rs Hrs.
    pose proof (get_my_bookings_200 _ _ _ _ Hrs) as ->.
    rewrite (handleLineEvent_my_queue false rr ev db H1 H2 H3), Hu.
    split; [|split; [done|]].
    + unfold get_my_bookings in *.
      by destruct (negb (truthy (Some u))).
    + intros Hne. unfold queue_text.
      destruct (select_by_user (Some u) (rows db)); done.
  - intros Hne. rewrite get_my_bookings_ok by done.
    eexists. split; [reflexivity|].
    split; [apply order_by_perm | apply order_by_sorted].
Qed.

Lemma chat_and_rest_list_alike_witness :
  (ev_type my_queue_event = "message" ∧
   ev_message_type my_queue_event = "text" ∧
   trim (ev_text my_queue_event) = "คิวของฉัน" ∧
   ev_userId my_queue_event = Some "Uann") ∧
  ∃ rs,
    resp (get_my_bookings false (Some "Uann") db_week) = Json 200 rs ∧
    id <$> rs = [4; 3; 1] ∧
    handleLineEvent false false my_queue_event db_week
    = (ResolvedReply,
       [DbAllUser (Some "Uann");
        ReplyMessage "token-1" (queue_text rs)]).
Proof.
  assert (trim (ev_text my_queue_event) = "คิวของฉัน") as Ht
    by (vm_compute; reflexivity).
  split; [by repeat split|].
  eexists. split; [reflexivity|]. split; [reflexivity|].
  exact (proj1 (proj2 (proj1
    (chat_and_rest_list_alike "Uann" my_queue_event db_week false
       eq_refl eq_refl Ht eq_refl) _ eq_refl))).
Defined.

(** * Further properties of the handlers *)

(** ** [POST /api/book]: failures *)

Lemma complete_dec q : complete q ∨ ¬ complete q.
Proof.
  unfold complete.
  destruct (truthy (q_lineUserId q)), (truthy (q_name q)),
    (truthy (q_date q)), (truthy (q_time q)); intuition congruence.
Qed.

Lemma incomplete_missing q :
  ¬ complete q →
  missing_or_empty (q_lineUserId q) ∨ missing_or_empty (q_name q) ∨
  missing_or_empty (q_date q) ∨ missing_or_empty (q_time q).
Proof.
  unfold complete. rewrite <- !truthy_false_iff.
  destruct (truthy (q_lineUserId q)), (truthy (q_name q)),
    (truthy (q_date q)), (truthy (q_time q)); intuition congruence.
Qed.

Lemma post_book_get_err e q db :
  complete q → get_err e = true →
  post_book e q db
  = Outcome (Error 500 "db error") db
      [DbGetCount (or_empty (q_date q)) (or_empty (q_time q)); ConsoleError].
Proof.
  intros Hq He. unfold post_book. by rewrite complete_guard, He.
Qed.

Lemma post_book_run_err e q db :
  complete q → get_err e = false → run_err e = true →
  count_slot (or_empty (q_date q)) (or_empty (q_time q)) (rows db)
    < CAPACITY_PER_SLOT →
  post_book e q db
  = Outcome (Error 500 "db error") db
      [DbGetCount (or_empty (q_date q)) (or_empty (q_time q));
       DbRunInsert (or_empty (q_lineUserId q)) (or_empty (q_name q))
         (or_empty (q_date q)) (or_empty (q_time q)) (or_empty (q_note q))
         (now e);
       ConsoleError].
Proof.
  intros Hq He Hr Hc. unfold post_book.
  rewrite complete_guard, He, Hr by done.
  assert ((count_slot (or_empty (q_date q)) (or_empty (q_time q)) (rows db)
             >=? CAPACITY_PER_SLOT)%Z = false) as ->; [|done].
  rewrite Z.geb_leb. apply Z.leb_gt. lia.
Qed.

(** The five ways the handler ends, one of which always applies. *)
Lemma post_book_cases e q db :
  (¬ complete q ∧
   post_book e q db
   = Outcome (Error 400 "lineUserId, name, date, time are required") db [])
  ∨ (complete q ∧ get_err e = true ∧
     post_book e q db
     = Outcome (Error 500 "db error") db
         [DbGetCount (or_empty (q_date q)) (or_empty (q_time q));
          ConsoleError])
  ∨ (complete q ∧ get_err e = false ∧
     count_slot (or_empty (q_date q)) (or_empty (q_time q)) (rows db)
       >= CAPACITY_PER_SLOT ∧
     post_book e q db
     = Outcome (Error 409 "slot is full") db
         [DbGetCount (or_empty (q_date q)) (or_empty (q_time q))])
  ∨ (complete q ∧ get_err e = false ∧ run_err e = true ∧
     count_slot (or_empty (q_date q)) (or_empty (q_time q)) (rows db)
       < CAPACITY_PER_SLOT ∧
     post_book e q db
     = Outcome (Error 500 "db error") db
         [DbGetCount (or_empty (q_date q)) (or_empty (q_time q));
          DbRunInsert (or_empty (q_lineUserId q)) (or_empty (q_name q))
            (or_empty (q_date q)) (or_empty (q_time q)) (or_empty (q_note q))
            (now e);
          ConsoleError])
  ∨ (complete q ∧ get_err e = false ∧ run_err e = false ∧
     count_slot (or_empty (q_date q)) (or_empty (q_time q)) (rows db)
       < CAPACITY_PER_SLOT ∧
     ∃ b, resp (post_book e q db) = Json 201 b).
Proof.
  destruct (complete_dec q) as [Hq|Hq].
  2: { left. split; [done|]. by apply post_book_incomplete, incomplete_missing. }
  right. destruct (get_err e) eqn:He.
  { left. split; [done|]. split; [done|]. by apply post_book_get_err. }
  right.
  destruct (Z_lt_ge_dec
    (count_slot (or_empty (q_date q)) (or_empty (q_time q)) (rows db))
    CAPACITY_PER_SLOT) as [Hc|Hc].
  2: { left. split; [done|]. split; [done|]. split; [done|].
       by apply post_book_full. }
  right. destruct (run_err e) eqn:Hr.
  { left. split; [done|]. split; [done|]. split; [done|]. split; [done|].
    by apply post_book_run_err. }
  right. split; [done|]. split; [done|]. split; [done|]. split; [done|].
  pose proof (post_book_free e q db Hq He Hr Hc) as Heq. simpl in Heq.
  rewrite Heq. by eexists.
Qed.

(** X1 — [POST /api/book] answers 201, 400, 409 or 500 and nothing else;
    whenever the answer is not 201 the table (rows and [sqlite_sequence])
    is exactly as before and no push message is sent. *)
Theorem post_book_failure_is_clean e q db :
  (∃ b, resp (post_book e q db) = Json 201 b) ∨
  (∃ c m, resp (post_book e q db) = Error c m ∧
          c ∈ [400; 409; 500] ∧
          db_after (post_book e q db) = db ∧
          ∀ ev, ev ∈ trace (post_book e q db) → ¬ is_push ev).
Proof.
  destruct (post_book_cases e q db)
    as [[_ H] | [(_ & _ & H) | [(_ & _ & _ & H) | [(_ & _ & _ & _ & H) | H]]]].
  5: { left. by destruct H as (_ & _ & _ & _ & H). }
  all: right; rewrite H; simpl; eexists _, _; split; [reflexivity|];
    split; [set_solver|]; split; [reflexivity|];
    intros ev Hev Hpush; no_push Hev Hpush.
Qed.

(** X2 — StorageError: the answer is 500 "db error" exactly when the four
    required fields are non-empty and either the COUNT query fails, or it
    succeeds, finds room, and the INSERT fails.  The error is logged, the
    table is unchanged, and after a failed COUNT no INSERT is issued. *)
Theorem post_book_db_error e q db :
  (resp (post_book e q db) = Error 500 "db error" ↔
   complete q ∧
   (get_err e = true ∨
    (get_err e = false ∧ run_err e = true ∧
     count_slot (or_empty (q_date q)) (or_empty (q_time q)) (rows db)
       < CAPACITY_PER_SLOT))) ∧
  (resp (post_book e q db) = Error 500 "db error" →
   ConsoleError ∈ trace (post_book e q db) ∧
   db_after (post_book e q db) = db ∧
   (get_err e = true →
    trace (post_book e q db)
    = [DbGetCount (or_empty (q_date q)) (or_empty (q_time q));
       ConsoleError])).
Proof.
  destruct (post_book_cases e q db)
    as [[Hq H] | [(Hq & He & H) | [(Hq & He & Hc & H)
       | [(Hq & He & Hr & Hc & H) | (Hq & He & Hr & Hc & b & H)]]]];
    rewrite ?H; simpl; (split; [split|]); try done.
  - by intros [? _].
  - intros _. split; [done|]. by left.
  - intros _. set_solver.
  - intros (_ & [? | (_ & _ & ?)]); [congruence | lia].
  - intros _. split; [done|]. right. done.
  - intros _. split; [set_solver|]. split; [done|]. congruence.
  - intros (_ & [? | (_ & ? & _)]); congruence.
Qed.

Lemma post_book_db_error_witness :
  resp (post_book (Env "2024-01-01T08:00:00.000Z" false true false)
          req_ann empty_db) = Error 500 "db error" ∧
  db_after (post_book (Env "2024-01-01T08:00:00.000Z" false true false)
              req_ann empty_db) = empty_db.
Proof.
  split; [reflexivity|].
  exact (proj1 (proj2 (proj2
    (post_book_db_error (Env "2024-01-01T08:00:00.000Z" false true false)
       req_ann empty_db) eq_refl))).
Defined.

(** ** The event loop under any schedule *)

Lemma run_cons s i sched : run s (i :: sched) = run (step s i) sched.
Proof. reflexivity. Qed.

Lemma run_app s sched1 sched2 :
  run s (sched1 ++ sched2) = run (run s sched1) sched2.
Proof. unfold run. apply foldl_app. Qed.

(** Running a piece of task [j] leaves every other task as it is. *)
Lemma step_other s i j : i ≠ j → tasks (step s j) !! i = tasks s !! i.
Proof.
  intros Hij. unfold step. destruct (tasks s !! j) as [t|]; [|done].
  destruct (step_task t (store s)) as [[t' db'] evs]. simpl.
  by apply list_lookup_insert_ne.
Qed.

Lemma step_same s i t :
  tasks s !! i = Some t →
  tasks (step s i) !! i = Some (step_task t (store s)).1.1.
Proof.
  intros Ht. unfold step. rewrite Ht.
  destruct (step_task t (store s)) as [[t' db'] evs]. simpl.
  apply list_lookup_insert_eq. by eapply lookup_lt_Some.
Qed.

(** The part of the table a piece can change. *)
Lemma step_task_store t db :
  (step_task t db).1.2 = db ∨
  ∃ b, (step_task t db).1.2
       = {| rows := rows db ++ [b]; seq := next_id db |} ∧
       id b = next_id db ∧ status b = "CONFIRMED".
Proof.
  destruct t as [e q|e q|e q [c|]|e q c|e q c [i|]|r]; simpl;
    repeat case_match; simpl; auto.
  right. eexists. repeat split.
Qed.

Lemma step_store_full s i :
  store (step s i) = store s ∨
  ∃ b, store (step s i)
       = {| rows := rows (store s) ++ [b]; seq := next_id (store s) |} ∧
       id b = next_id (store s) ∧ status b = "CONFIRMED".
Proof.
  unfold step. destruct (tasks s !! i) as [t|]; [|by left].
  pose proof (step_task_store t (store s)) as H.
  destruct (step_task t (store s)) as [[t' db'] evs]. exact H.
Qed.

Lemma run_rows_grow s sched :
  ∃ added,
    rows (store (run s sched)) = rows (store s) ++ added ∧
    all_confirmed added ∧
    seq (store s) ≤ seq (store (run s sched)).
Proof.
  revert s. induction sched as [|i sched IH]; intros s.
  - exists []. rewrite app_nil_r. repeat split; [constructor | done].
  - rewrite run_cons. destruct (IH (step s i)) as (added & Hrows & Hall & Hseq).
    destruct (step_store_full s i) as [Heq | (b & Heq & _ & Hb)];
      rewrite Heq in Hrows, Hseq.
    + by exists added.
    + simpl in *. exists (b :: added). rewrite Hrows, <- app_assoc.
      split; [done|]. split; [by constructor|].
      pose proof (next_id_seq (store s)). lia.
Qed.

Lemma count_slot_app d t (l k : list booking) :
  count_slot d t (l ++ k) = count_slot d t l + count_slot d t k.
Proof. unfold count_slot. rewrite filter_app, length_app. lia. Qed.

Lemma count_slot_nonneg d t (l : list booking) : 0 ≤ count_slot d t l.
Proof. unfold count_slot. lia. Qed.

(** X3 — Append-only ledger: whatever pieces of whatever requests run, in
    any order, the rows that were in the table stay, unchanged and in
    place; rows are only added at the end, all CONFIRMED; hence no slot's
    count ever goes down, and [sqlite_sequence] never decreases. *)
Theorem run_appends_only s sched :
  ∃ added,
    rows (store (run s sched)) = rows (store s) ++ added ∧
    all_confirmed added ∧
    (∀ d t, count_slot d t (rows (store s))
            ≤ count_slot d t (rows (store (run s sched)))) ∧
    seq (store s) ≤ seq (store (run s sched)).
Proof.
  destruct (run_rows_grow s sched) as (added & Hrows & Hall & Hseq).
  exists added. repeat split; try done.
  intros d t. rewrite Hrows, count_slot_app.
  pose proof (count_slot_nonneg d t added). lia.
Qed.

(** X4 — A full slot stays full: once a slot holds [CAPACITY_PER_SLOT]
    bookings or more, then after any further pieces of any requests, in
    any order, a complete request for that slot (whose COUNT query
    succeeds) is answered 409 and changes nothing.  Nothing in the program
    frees a slot. *)
Theorem full_slot_stays_full s sched e q :
  complete q → get_err e = false →
  count_slot (or_empty (q_date q)) (or_empty (q_time q)) (rows (store s))
    >= CAPACITY_PER_SLOT →
  resp (post_book e q (store (run s sched))) = Error 409 "slot is full" ∧
  db_after (post_book e q (store (run s sched))) = store (run s sched).
Proof.
  intros Hq He Hc.
  destruct (run_rows_grow s sched) as (added & Hrows & _ & _).
  rewrite post_book_full; [done..|].
  rewrite Hrows, count_slot_app.
  pose proof (count_slot_nonneg (or_empty (q_date q)) (or_empty (q_time q))
                added). lia.
Qed.

Lemma full_slot_stays_full_witness :
  (complete req_bob ∧ get_err env_ok = false ∧
   count_slot "2024-01-01" "09:00" (rows db_ann) >= CAPACITY_PER_SLOT) ∧
  resp (post_book env_ok req_bob
          (store (run (Server db_ann [Received env_ok req_odd_time] [])
                    [0; 0; 0; 0; 0]%nat)))
  = Error 409 "slot is full".
Proof.
  assert (complete req_bob) as Hq by (repeat split).
  assert (count_slot "2024-01-01" "09:00" (rows db_ann) >= CAPACITY_PER_SLOT)
    as Hc by (vm_compute; discriminate).
  split; [by repeat split|].
  exact (proj1 (full_slot_stays_full
                  (Server db_ann [Received env_ok req_odd_time] [])
                  [0; 0; 0; 0; 0]%nat env_ok req_bob Hq eq_refl Hc)).
Defined.

Lemma pieces_left_step t db :
  (pieces_left (step_task t db).1.1 ≤ pred (pieces_left t))%nat.
Proof.
  destruct t as [e q|e q|e q [c|]|e q c|e q c [i|]|r]; simpl;
    repeat case_match; simpl; lia.
Qed.

Lemma responded_stays s sched i r :
  tasks s !! i = Some (Responded r) →
  tasks (run s sched) !! i = Some (Responded r).
Proof.
  revert s. induction sched as [|j sched IH]; intros s Hr; [done|].
  rewrite run_cons. apply IH.
  destruct (decide (i = j)) as [<-|Hij].
  - by rewrite (step_same _ _ _ Hr).
  - by rewrite step_other.
Qed.

(** X5 — Every request is answered: a request that has been received is
    answered once the schedule has run five of its pieces (fewer if it is
    further on), however the pieces of other requests are interleaved; and
    the answer, once given, never changes. *)
Theorem every_request_is_answered s sched i t :
  tasks s !! i = Some t →
  (pieces_left t ≤ times_scheduled i sched)%nat →
  ∃ r, tasks (run s sched) !! i = Some (Responded r) ∧
       ∀ more, tasks (run (run s sched) more) !! i = Some (Responded r).
Proof.
  intros Ht Hn.
  assert (∃ r, tasks (run s sched) !! i = Some (Responded r)) as [r Hr].
  { revert s t Ht Hn. induction sched as [|j sched IH]; intros s t Ht Hn.
    - unfold times_scheduled in Hn. simpl in Hn.
      destruct t; simpl in Hn; try lia. by eexists.
    - rewrite run_cons. unfold times_scheduled in Hn.
      rewrite filter_cons in Hn. destruct (decide (j = i)) as [->|Hji].
      + eapply IH; [by apply step_same|].
        pose proof (pieces_left_step t (store s)).
        unfold times_scheduled. simpl in Hn. lia.
      + eapply IH; [|exact Hn]. by rewrite step_other. }
  exists r. split; [done|]. intros more. by apply responded_stays.
Qed.

Lemma every_request_is_answered_witness :
  (pieces_left (Received env_ok req_bob)
   ≤ times_scheduled 1 [0; 1; 0; 1; 0; 1; 0; 1; 0; 1])%nat ∧
  ∃ r, tasks (run (Server empty_db [Received env_ok req_ann;
                                    Received env_ok req_bob] [])
                [0; 1; 0; 1; 0; 1; 0; 1; 0; 1]%nat) !! 1%nat
       = Some (Responded r).
Proof.
  assert (pieces_left (Received env_ok req_bob)
          ≤ times_scheduled 1 [0; 1; 0; 1; 0; 1; 0; 1; 0; 1])%nat as Hn
    by (vm_compute; lia).
  split; [exact Hn|].
  destruct (every_request_is_answered
              (Server empty_db [Received env_ok req_ann;
                                Received env_ok req_bob] [])
              [0; 1; 0; 1; 0; 1; 0; 1; 0; 1]%nat 1%nat _ eq_refl Hn)
    as (r & Hr & _).
  by exists r.
Defined.

(** ** Tables and servers the program can reach *)

Lemma max_rowid_le (l : list booking) n :
  0 ≤ n → (∀ r, r ∈ l → id r ≤ n) → max_rowid l ≤ n.
Proof.
  intros Hn. induction l as [|x l IH]; intros H; simpl; [done|].
  assert (id x ≤ n) by (apply H; left).
  assert (max_rowid l ≤ n) by (apply IH; intros r Hr; apply H; by right).
  lia.
Qed.

(** X6 — Row ids under any interleaving: in every table the program can
    produce from the empty one, the rows carry the ids 1, 2, ..., n in
    table order, and [sqlite_sequence] is n.  Row ids are therefore
    unique and follow the order of insertion, even when requests race. *)
Theorem reachable_ids_consecutive db :
  reachable db →
  id <$> rows db = Z.of_nat <$> List.seq 1 (length (rows db)) ∧
  seq db = Z.of_nat (length (rows db)) ∧
  NoDup (id <$> rows db).
Proof.
  intros Hreach.
  assert (id <$> rows db = Z.of_nat <$> List.seq 1 (length (rows db)) ∧
          seq db = Z.of_nat (length (rows db))) as [Hids Hseq].
  { induction Hreach as [|s i _ [IHids IHseq]]; [done|].
    destruct (step_store_full s i) as [-> | (b & -> & Hb & _)]; [done|].
    simpl. rewrite length_app, Nat.add_1_r. simpl length.
    assert (next_id (store s) = Z.of_nat (S (length (rows (store s)))))
      as Hnext.
    { unfold next_id. rewrite IHseq.
      assert (max_rowid (rows (store s))
              ≤ Z.of_nat (length (rows (store s)))).
      { apply max_rowid_le; [lia|]. intros r Hr.
        assert (id r ∈ id <$> rows (store s)) as Hin
          by (by apply list_elem_of_fmap_2).
        rewrite IHids in Hin.
        apply list_elem_of_fmap in Hin as (k & -> & Hk).
        apply list_elem_of_In, in_seq in Hk. lia. }
      lia. }
    split; [|done].
    rewrite fmap_app, IHids, seq_S, fmap_app. simpl.
    by rewrite Hb, Hnext. }
  split; [done|]. split; [done|].
  rewrite Hids. apply NoDup_fmap_2; [intros ???; lia|].
  apply NoDup_ListNoDup, seq_NoDup.
Qed.

Lemma reachable_ids_consecutive_witness :
  reachable
    (store (run (Server empty_db [Received env_ok req_ann;
                                  Received env_ok req_bob] [])
              [0; 1; 0; 1; 0; 1; 0; 1; 0; 1]%nat)) ∧
  id <$> rows (store (run (Server empty_db [Received env_ok req_ann;
                                            Received env_ok req_bob] [])
                        [0; 1; 0; 1; 0; 1; 0; 1; 0; 1]%nat))
  = [1; 2].
Proof.
  assert (∀ s sched, reachable (store s) → reachable (store (run s sched)))
    as Hrun.
  { intros s sched. revert s.
    induction sched as [|i sched IH]; intros s Hs; [done|].
    rewrite run_cons. apply IH. by constructor. }
  assert (reachable
    (store (run (Server empty_db [Received env_ok req_ann;
                                  Received env_ok req_bob] [])
              [0; 1; 0; 1; 0; 1; 0; 1; 0; 1]%nat))) as Hreach.
  { apply Hrun. constructor. }
  split; [exact Hreach|].
  exact (proj1 (reachable_ids_consecutive _ Hreach)).
Defined.

Lemma complete_fields q :
  complete q →
  or_empty (q_lineUserId q) ≠ "" ∧ or_empty (q_name q) ≠ "" ∧
  or_empty (q_date q) ≠ "" ∧ or_empty (q_time q) ≠ "".
Proof.
  intros (H1 & H2 & H3 & H4).
  apply truthy_true_iff in H1 as (? & -> & ?).
  apply truthy_true_iff in H2 as (? & -> & ?).
  apply truthy_true_iff in H3 as (? & -> & ?).
  apply truthy_true_iff in H4 as (? & -> & ?). done.
Qed.

Lemma task_sound_grow db b t :
  task_sound db t →
  task_sound {| rows := rows db ++ [b]; seq := next_id db |} t.
Proof.
  destruct t as [e q|e q|e q [c|]|e q c|e q c [i|]|[c b'|c m]]; simpl;
    try done.
  - intros [? ?]. split; [done|]. apply elem_of_app. by left.
  - intros ?. apply elem_of_app. by left.
Qed.

(** One piece keeps the rows well formed and every task sound. *)
Lemma step_task_sound t db :
  Forall well_formed_row (rows db) → task_sound db t →
  Forall well_formed_row (rows (step_task t db).1.2) ∧
  task_sound (step_task t db).1.2 (step_task t db).1.1 ∧
  ∀ t', task_sound db t' → task_sound (step_task t db).1.2 t'.
Proof.
  intros Hwf Ht.
  destruct t as [e q|e q|e q [c|]|e q c|e q c [i|]|[c b'|c m]]; simpl in *.
  - destruct (negb (truthy (q_lineUserId q)) || negb (truthy (q_name q))
              || negb (truthy (q_date q)) || negb (truthy (q_time q)))
      eqn:Hg; simpl; [done|].
    split; [done|]. split; [|done].
    apply orb_false_elim in Hg as [Hg H4].
    apply orb_false_elim in Hg as [Hg H3].
    apply orb_false_elim in Hg as [H1 H2].
    apply negb_false_iff in H1, H2, H3, H4. done.
  - by destruct (get_err e).
  - by destruct (c >=? CAPACITY_PER_SLOT)%Z.
  - done.
  - destruct (run_err e); simpl; [done|].
    destruct (complete_fields q Ht) as (? & ? & ? & ?).
    split; [|split].
    + apply Forall_app. split; [done|]. by repeat constructor.
    + split; [done|]. apply elem_of_app. right. left.
    + intros t'. apply task_sound_grow.
  - by destruct Ht.
  - done.
  - done.
  - done.
Qed.

Lemma reachable_server_sound s :
  reachable_server s →
  Forall well_formed_row (rows (store s)) ∧
  Forall (task_sound (store s)) (tasks s).
Proof.
  induction 1 as [reqs|s i _ [IHwf IHts]].
  - split; [constructor|]. simpl. apply Forall_fmap, Forall_forall.
    by intros [e q] _.
  - unfold step. destruct (tasks s !! i) as [t|] eqn:Ht; [|done].
    assert (task_sound (store s) t) as Hsound.
    { rewrite Forall_forall in IHts. apply IHts.
      by eapply list_elem_of_lookup_2. }
    destruct (step_task_sound t (store s) IHwf Hsound) as (Hwf & Ht' & Hall).
    destruct (step_task t (store s)) as [[t' db'] evs]. simpl in *.
    split; [done|].
    apply Forall_insert; [|done].
    eapply Forall_impl; [exact IHts|]. exact Hall.
Qed.

(** X7 — Validation protects the table, and 201 tells the truth: started
    on the empty table, under any interleaving of any requests, every
    stored row has a non-empty [lineUserId], [name], [date] and [time],
    and every request that has been answered 201 with a booking finds
    exactly that booking among the rows of the table. *)
Theorem reachable_server_rows s :
  reachable_server s →
  Forall well_formed_row (rows (store s)) ∧
  ∀ i c b,
    tasks s !! i = Some (Responded (Json c b)) → b ∈ rows (store s).
Proof.
  intros [Hwf Hts]%reachable_server_sound. split; [done|].
  intros i c b Hi. rewrite Forall_forall in Hts.
  exact (Hts _ (list_elem_of_lookup_2 _ _ _ Hi)).
Qed.

Lemma reachable_server_rows_witness :
  reachable_server
    (run (Server empty_db
            ((fun r => Received r.1 r.2)
               <$> [(env_ok, req_ann); (env_ok, req_no_name)]) [])
       [1; 0; 0; 0; 0; 0]%nat) ∧
  Forall well_formed_row
    (rows (store (run (Server empty_db
                         ((fun r => Received r.1 r.2)
                            <$> [(env_ok, req_ann); (env_ok, req_no_name)])
                         [])
                    [1; 0; 0; 0; 0; 0]%nat))).
Proof.
  assert (∀ s sched, reachable_server s → reachable_server (run s sched))
    as Hrun.
  { intros s sched. revert s.
    induction sched as [|i sched IH]; intros s Hs; [done|].
    rewrite run_cons. apply IH. by constructor. }
  assert (reachable_server
    (run (Server empty_db
            ((fun r => Received r.1 r.2)
               <$> [(env_ok, req_ann); (env_ok, req_no_name)]) [])
       [1; 0; 0; 0; 0; 0]%nat)) as Hreach.
  { apply Hrun. constructor. }
  split; [exact Hreach|].
  exact (proj1 (reachable_server_rows _ Hreach)).
Defined.

(** ** Serving requests one after the other *)

Lemma step_at db pre t post lg :
  step (Server db (pre ++ t :: post) lg) (length pre)
  = Server (step_task t db).1.2 (pre ++ (step_task t db).1.1 :: post)
      (lg ++ (step_task t db).2).
Proof.
  unfold step. cbn [tasks store log].
  rewrite list_lookup_middle by done.
  destruct (step_task t db) as [[t' db'] evs]. cbn [fst snd]. f_equal.
  rewrite insert_app_r_alt by done. by rewrite Nat.sub_diag.
Qed.

(** The five pieces of one request, run back to back among idle tasks. *)
Lemma run_five_at db pre e q post lg :
  run (Server db (pre ++ Received e q :: post) lg) (replicate 5 (length pre))
  = Server (db_after (post_book e q db))
      (pre ++ Responded (resp (post_book e q db)) :: post)
      (lg ++ trace (post_book e q db)).
Proof.
  unfold run, post_book. cbn [replicate foldl].
  rewrite step_at. cbn [step_task].
  destruct (negb (truthy (q_lineUserId q)) || negb (truthy (q_name q))
            || negb (truthy (q_date q)) || negb (truthy (q_time q)));
    cbn [fst snd].
  { rewrite !step_at. cbn [step_task fst snd resp db_after trace].
    by rewrite !app_nil_r. }
  rewrite step_at. cbn [step_task].
  destruct (get_err e); cbn [fst snd].
  { rewrite !step_at. cbn [step_task fst snd resp db_after trace].
    by rewrite !app_nil_r, <- !app_assoc. }
  rewrite step_at. cbn [step_task].
  destruct (_ >=? _)%Z; cbn [fst snd].
  { rewrite !step_at. cbn [step_task fst snd resp db_after trace].
    by rewrite !app_nil_r. }
  rewrite step_at. cbn [step_task].
  destruct (run_err e); cbn [fst snd].
  { rewrite !step_at. cbn [step_task fst snd resp db_after trace].
    by rewrite !app_nil_r, <- !app_assoc. }
  cbn [insert_booking fst snd].
  rewrite step_at. cbn [step_task fst snd resp db_after trace].
  by rewrite !app_nil_r, <- !app_assoc.
Qed.

Lemma serial_schedule_cons k n :
  serial_schedule k (S n) = replicate 5 k ++ serial_schedule (S k) n.
Proof. reflexivity. Qed.

Lemma serve_within_capacity reqs db :
  within_capacity (rows db) → within_capacity (rows (serve reqs db).1.2).
Proof.
  revert db. induction reqs as [|r reqs IH]; intros db Hcap; [done|].
  simpl. specialize (IH (db_after (post_book r.1 r.2 db))
                        (post_book_within_capacity _ _ _ Hcap)).
  by destruct (serve reqs (db_after (post_book r.1 r.2 db))) as [[rs db'] tr].
Qed.

(** X8 — Served in turn, requests behave as the handler says and never
    overbook: when the pieces of a batch of requests run back to back,
    request after request (other requests, at whatever stage, staying
    idle), the answers, the table and the effects are those of handling
    the requests one after the other; and if no slot was over capacity
    before, none is afterwards. *)
Theorem serial_service reqs db pre post lg :
  run (Server db (pre ++ ((fun r => Received r.1 r.2) <$> reqs) ++ post) lg)
    (serial_schedule (length pre) (length reqs))
  = Server (serve reqs db).1.2
      (pre ++ (Responded <$> (serve reqs db).1.1) ++ post)
      (lg ++ (serve reqs db).2) ∧
  (within_capacity (rows db) →
   within_capacity (rows (serve reqs db).1.2)).
Proof.
  split; [|apply serve_within_capacity].
  revert db pre lg. induction reqs as [|[e q] reqs IH]; intros db pre lg.
  - simpl. by rewrite app_nil_r.
  - cbn [length fmap list_fmap]. rewrite serial_schedule_cons, run_app.
    cbn [app fst snd]. rewrite run_five_at.
    rewrite (cons_middle (Responded _) pre), app_assoc.
    replace (S (length pre))
      with (length (pre ++ [Responded (resp (post_book e q db))]))
      by (rewrite length_app; simpl; lia).
    rewrite IH. cbn [serve fst snd].
    destruct (serve reqs (db_after (post_book e q db))) as [[rs db'] tr].
    cbn [fst snd fmap list_fmap]. f_equal.
    + by rewrite <- app_assoc.
    + by rewrite <- app_assoc.
Qed.

Lemma serial_service_witness :
  within_capacity (rows empty_db) ∧
  tasks (run (Server empty_db
                ((fun r => Received r.1 r.2)
                   <$> [(env_ok, req_ann); (env_ok, req_bob)]) [])
           (serial_schedule 0 2))
  = [Responded (Json 201 (Booking 1 "Uann" "Ann" "2024-01-01" "09:00" ""
                            "CONFIRMED" "2024-01-01T08:00:00.000Z"));
     Responded (Error 409 "slot is full")] ∧
  within_capacity
    (rows (serve [(env_ok, req_ann); (env_ok, req_bob)] empty_db).1.2).
Proof.
  assert (within_capacity (rows empty_db)) as Hcap.
  { intros d t. vm_compute. discriminate. }
  split; [exact Hcap|]. split; [reflexivity|].
  exact (proj2 (serial_service [(env_ok, req_ann); (env_ok, req_bob)]
                  empty_db [] [] []) Hcap).
Defined.

(** ** [GET /api/slots] and [POST /api/book] together *)

Lemma complete_date_time q d t :
  complete q → q_date q = Some d → q_time q = Some t →
  d ≠ "" ∧ t ≠ "" ∧ or_empty (q_date q) = d ∧ or_empty (q_time q) = t.
Proof.
  intros Hq Hd Ht. destruct (complete_fields q Hq) as (_ & _ & H3 & H4).
  rewrite Hd in *. rewrite Ht in *. done.
Qed.

(** X9 — The availability view predicts the booking: for a complete
    request for date [d] and a catalog time [t] (and no database error),
    the entry for [t] in the answer of [GET /api/slots?date=d] on the same
    table has [isFull = true] exactly when the request is refused with
    409, and [isFull = false] exactly when it is booked with 201. *)
Theorem is_full_predicts_slot_full e q db d t :
  complete q → q_date q = Some d → q_time q = Some t →
  t ∈ TIME_SLOTS → get_err e = false → run_err e = false →
  ∃ slots,
    resp (get_slots false (Some d) db) = Json 200 (SlotsBody d slots) ∧
    (∃ v, v ∈ slots ∧ s_time v = t) ∧
    ∀ v, v ∈ slots → s_time v = t →
      (s_isFull v = true ↔
       resp (post_book e q db) = Error 409 "slot is full") ∧
      (s_isFull v = false ↔ ∃ b, resp (post_book e q db) = Json 201 b).
Proof.
  intros Hq Hd Ht Hin He Hr.
  destruct (complete_date_time q d t Hq Hd Ht) as (Hd' & _ & Hod & Hot).
  rewrite get_slots_ok by done. cbn [resp].
  eexists. split; [reflexivity|]. split.
  { exists (spec_slot (count_slot d t (rows db)) t). split; [|done].
    by apply (list_elem_of_fmap_2
                (fun t => spec_slot (count_slot d t (rows db)) t)). }
  intros v (t0 & -> & _)%list_elem_of_fmap Hv. simpl in Hv. subst t0.
  unfold spec_slot. cbn [s_isFull].
  destruct (Z_lt_ge_dec (count_slot d t (rows db)) CAPACITY_PER_SLOT)
    as [Hc|Hc].
  - pose proof (post_book_free e q db Hq He Hr) as Heq.
    rewrite Hod, Hot in Heq. specialize (Heq Hc). simpl in Heq.
    rewrite Heq. cbn [resp].
    rewrite bool_decide_eq_false_2 by lia.
    split; split; try done. by eexists.
  - pose proof (post_book_full e q db Hq He) as Heq.
    rewrite Hod, Hot in Heq. specialize (Heq Hc).
    rewrite Heq. cbn [resp].
    rewrite bool_decide_eq_true_2 by lia.
    split; split; try done. by intros [? ?].
Qed.

Lemma is_full_predicts_slot_full_witness :
  (complete req_bob ∧ ("09:00" ∈ TIME_SLOTS)) ∧
  ∃ slots,
    resp (get_slots false (Some "2024-01-01") db_ann)
      = Json 200 (SlotsBody "2024-01-01" slots) ∧
    slots !! 0%nat = Some (SlotView "09:00" 1 1 0 true) ∧
    resp (post_book env_ok req_bob db_ann) = Error 409 "slot is full".
Proof.
  assert (complete req_bob) as Hq by (repeat split).
  assert ("09:00" ∈ TIME_SLOTS) as Hin by left.
  split; [done|].
  destruct (is_full_predicts_slot_full env_ok req_bob db_ann
              "2024-01-01" "09:00" Hq eq_refl eq_refl Hin eq_refl eq_refl)
    as (slots & Hresp & _ & Hall).
  exists slots. split; [exact Hresp|].
  assert (resp (get_slots false (Some "2024-01-01") db_ann)
          = Json 200 (SlotsBody "2024-01-01"
              (slot_of (build_bookedMap
                          (group_by_time "2024-01-01" (rows db_ann)))
                 <$> TIME_SLOTS))) as Hres by reflexivity.
  rewrite Hresp in Hres. injection Hres as ->.
  split; [vm_compute; reflexivity|].
  apply (Hall (SlotView "09:00" 1 1 0 true)); [|done..].
  vm_compute. left.
Defined.

(** X10 — A booking shows in the availability view: after a request is
    answered 201 with booking [b], the answer of [GET /api/slots] for any
    date [d] has the same labels and capacities as before, and each
    entry's [booked] is what it was, plus one for the entry of [b]'s time
    when [d] is [b]'s date.  Bookings for other dates or other times leave
    an entry untouched. *)
Theorem booking_shows_in_slots e q db b d :
  resp (post_book e q db) = Json 201 b → d ≠ "" →
  ∃ before after,
    resp (get_slots false (Some d) db) = Json 200 (SlotsBody d before) ∧
    resp (get_slots false (Some d) (db_after (post_book e q db)))
      = Json 200 (SlotsBody d after) ∧
    Forall2 (fun v v' =>
               s_time v' = s_time v ∧ s_capacity v' = s_capacity v ∧
               s_booked v'
               = s_booked v
                 + (if decide (in_slot d (s_time v) b) then 1 else 0))
      before after.
Proof.
  intros H Hd.
  destruct (post_book_created _ _ _ _ H) as (Hq & He & Hr & Hc).
  pose proof (post_book_free e q db Hq He Hr Hc) as Heq. simpl in Heq.
  rewrite Heq in H |- *. cbn [resp db_after] in *.
  assert (b = Booking (next_id db) (or_empty (q_lineUserId q))
                (or_empty (q_name q)) (or_empty (q_date q))
                (or_empty (q_time q)) (or_empty (q_note q)) "CONFIRMED"
                (now e)) as Hb by congruence.
  rewrite <- Hb. clear H Heq.
  rewrite !get_slots_ok by done. cbn [resp rows].
  eexists _, _. split; [reflexivity|]. split; [reflexivity|].
  apply Forall2_fmap, Forall_Forall2_diag, Forall_forall.
  intros t _. simpl. by rewrite count_slot_snoc.
Qed.

Lemma booking_shows_in_slots_witness :
  "2024-01-01" ≠ "" ∧
  ∃ b before after,
    resp (post_book env_ok req_ann empty_db) = Json 201 b ∧
    resp (get_slots false (Some "2024-01-01") empty_db)
      = Json 200 (SlotsBody "2024-01-01" before) ∧
    resp (get_slots false (Some "2024-01-01") db_ann)
      = Json 200 (SlotsBody "2024-01-01" after) ∧
    s_booked <$> before = [0; 0; 0; 0; 0; 0; 0; 0; 0; 0; 0; 0; 0] ∧
    s_booked <$> after = [1; 0; 0; 0; 0; 0; 0; 0; 0; 0; 0; 0; 0].
Proof.
  assert ("2024-01-01" ≠ "") as Hd by discriminate.
  split; [exact Hd|].
  destruct (booking_shows_in_slots env_ok req_ann empty_db _ "2024-01-01"
              eq_refl Hd) as (before & after & H1 & H2 & _).
  eexists _, before, after. split; [reflexivity|].
  split; [exact H1|]. split; [exact H2|].
  assert (resp (get_slots false (Some "2024-01-01") empty_db)
          = Json 200 (SlotsBody "2024-01-01"
              (slot_of (build_bookedMap
                          (group_by_time "2024-01-01" (rows empty_db)))
                 <$> TIME_SLOTS))) as Hres1 by reflexivity.
  assert (resp (get_slots false (Some "2024-01-01") db_ann)
          = Json 200 (SlotsBody "2024-01-01"
              (slot_of (build_bookedMap
                          (group_by_time "2024-01-01" (rows db_ann)))
                 <$> TIME_SLOTS))) as Hres2 by reflexivity.
  unfold db_ann in Hres2.
  rewrite H1 in Hres1. rewrite H2 in Hres2.
  injection Hres1 as ->. injection Hres2 as ->.
  split; vm_compute; reflexivity.
Defined.

Lemma length_filter_split {A} (P Q R : A → Prop)
    `{∀ x, Decision (P x)} `{∀ x, Decision (Q x)} `{∀ x, Decision (R x)}
    (l : list A) :
  (∀ x, R x ↔ P x ∨ Q x) → (∀ x, P x → Q x → False) →
  length (filter R l) = (length (filter P l) + length (filter Q l))%nat.
Proof.
  intros HR Hdisj. induction l as [|x l IH]; [done|].
  rewrite !filter_cons.
  destruct (decide (P x)) as [HP|HP], (decide (Q x)) as [HQ|HQ].
  - by destruct (Hdisj x).
  - rewrite decide_True by (apply HR; by left). simpl. lia.
  - rewrite decide_True by (apply HR; by right). simpl. lia.
  - rewrite decide_False by (rewrite HR; tauto). done.
Qed.

Lemma sum_of_counts d (l : list booking) (ts : list string) :
  NoDup ts →
  foldr (fun t acc => count_slot d t l + acc) 0 ts
  = Z.of_nat (length (filter (fun b => date b = d ∧ time b ∈ ts) l)).
Proof.
  induction 1 as [|t ts Ht Hnd IH]; simpl.
  - assert (filter (fun b => date b = d ∧ time b ∈ []) l = []) as ->; [|done].
    induction l as [|b l IHl]; [done|].
    rewrite filter_cons, decide_False; [done|].
    intros [_ Hb]. by apply elem_of_nil in Hb.
  - rewrite IH. unfold count_slot.
    rewrite (length_filter_split (in_slot d t)
               (fun b => date b = d ∧ time b ∈ ts)
               (fun b => date b = d ∧ time b ∈ t :: ts)).
    + lia.
    + intros b. unfold in_slot. rewrite elem_of_cons. tauto.
    + intros b [_ Hb] [_ Hb']. apply Ht. by rewrite <- Hb.
Qed.

Lemma length_filter_weaken {A} (P Q : A → Prop)
    `{∀ x, Decision (P x)} `{∀ x, Decision (Q x)} (l : list A) :
  (∀ x, P x → Q x) → (length (filter P l) ≤ length (filter Q l))%nat.
Proof.
  intros HPQ. induction l as [|x l IH]; [done|].
  rewrite !filter_cons.
  destruct (decide (P x)) as [HP|HP].
  - rewrite decide_True by auto. simpl. lia.
  - destruct (decide (Q x)); simpl; lia.
Qed.

Lemma NoDup_TIME_SLOTS : NoDup TIME_SLOTS.
Proof. apply (bool_decide_unpack _). vm_compute. exact I. Qed.

(** X11 — The availability view accounts for every catalog booking once:
    in a 200 answer of [GET /api/slots] the [booked] figures of the 13
    entries add up to the number of rows of that date whose time is a
    catalog label; in particular never to more than the rows of that
    date. *)
Theorem slots_account_for_bookings err qd db body :
  resp (get_slots err qd db) = Json 200 body →
  total_booked (sb_slots body)
  = Z.of_nat (length (filter (fun b => date b = sb_date body
                                       ∧ time b ∈ TIME_SLOTS) (rows db))) ∧
  total_booked (sb_slots body)
  ≤ Z.of_nat (length (filter (fun b => date b = sb_date body) (rows db))).
Proof.
  intros H.
  destruct (get_slots_200 _ _ _ _ H) as (-> & d & -> & Hd).
  rewrite get_slots_ok in H by done. cbn [resp] in H.
  assert (body = SlotsBody d
            ((fun t => spec_slot (count_slot d t (rows db)) t) <$> TIME_SLOTS))
    as -> by congruence.
  clear H. cbn [sb_slots sb_date].
  assert (total_booked
            ((fun t => spec_slot (count_slot d t (rows db)) t) <$> TIME_SLOTS)
          = foldr (fun t acc => count_slot d t (rows db) + acc) 0 TIME_SLOTS)
    as -> by reflexivity.
  rewrite sum_of_counts by apply NoDup_TIME_SLOTS.
  split; [done|].
  apply inj_le, length_filter_weaken. tauto.
Qed.

Lemma slots_account_for_bookings_witness :
  ∃ body,
    resp (get_slots false (Some "2024-01-01") db_odd) = Json 200 body ∧
    length (rows db_odd) = 2%nat ∧
    total_booked (sb_slots body) = 1.
Proof.
  eexists. split; [reflexivity|]. split; [reflexivity|].
  rewrite (proj1 (slots_account_for_bookings false (Some "2024-01-01") db_odd
                    _ eq_refl)).
  vm_compute. reflexivity.
Defined.

(** ** [GET /api/my-bookings] after a booking *)

(** X12 — A booking shows in its owner's list and in nobody else's: after
    a request is answered 201 with booking [b], [GET /api/my-bookings] for
    [b]'s user answers 200 with the list it gave before plus [b] (in
    [(date, time)] order), and for every other user the answer is exactly
    what it was before. *)
Theorem booking_shows_in_my_bookings e q db b :
  resp (post_book e q db) = Json 201 b →
  (∃ before after,
     resp (get_my_bookings false (Some (lineUserId b)) db)
       = Json 200 before ∧
     resp (get_my_bookings false (Some (lineUserId b))
             (db_after (post_book e q db))) = Json 200 after ∧
     b ∈ after ∧ after ≡ₚ b :: before ∧ StronglySorted row_le after) ∧
  (∀ u, u ≠ lineUserId b →
     resp (get_my_bookings false (Some u) (db_after (post_book e q db)))
     = resp (get_my_bookings false (Some u) db)).
Proof.
  intros H.
  destruct (post_book_created _ _ _ _ H) as (Hq & He & Hr & Hc).
  pose proof (post_book_free e q db Hq He Hr Hc) as Heq. simpl in Heq.
  rewrite Heq in H |- *. cbn [resp db_after] in *.
  assert (b = Booking (next_id db) (or_empty (q_lineUserId q))
                (or_empty (q_name q)) (or_empty (q_date q))
                (or_empty (q_time q)) (or_empty (q_note q)) "CONFIRMED"
                (now e)) as Hb by congruence.
  rewrite <- Hb. clear H Heq.
  assert (lineUserId b ≠ "") as Hu.
  { rewrite Hb. simpl. by destruct (complete_fields q Hq). }
  split.
  - rewrite !get_my_bookings_ok by done. cbn [resp rows select_by_user].
    eexists _, _. split; [reflexivity|]. split; [reflexivity|].
    rewrite filter_app, filter_cons_True, filter_nil by done.
    assert (order_by_date_time
              (filter (fun b0 => lineUserId b0 = lineUserId b) (rows db)
               ++ [b])
            ≡ₚ b :: order_by_date_time
                      (filter (fun b0 => lineUserId b0 = lineUserId b)
                         (rows db))) as Hperm.
    { rewrite !order_by_perm. by rewrite Permutation_app_comm. }
    split; [|split; [done | apply order_by_sorted]].
    rewrite Hperm. left.
  - intros u Hne. unfold get_my_bookings.
    destruct (negb (truthy (Some u))); [done|].
    cbn [resp rows select_by_user].
    rewrite filter_app, filter_cons_False, filter_nil, app_nil_r; done.
Qed.

Lemma booking_shows_in_my_bookings_witness :
  ∃ b after,
    resp (post_book env_ok req_bob db_odd) = Error 409 "slot is full" ∧
    resp (post_book env_ok req_odd_time db_ann) = Json 201 b ∧
    resp (get_my_bookings false (Some "Uann") db_odd) = Json 200 after ∧
    id <$> after = [1; 2] ∧
    b ∈ after.
Proof.
  destruct (proj1 (booking_shows_in_my_bookings env_ok req_odd_time db_ann _
                     eq_refl)) as (before & after & _ & H2 & Hin & _).
  eexists _, after. split; [reflexivity|]. split; [reflexivity|].
  split; [exact H2|]. split; [|exact Hin].
  assert (resp (get_my_bookings false (Some "Uann") db_odd)
          = Json 200 (select_by_user (Some "Uann") (rows db_odd))) as Hres
    by reflexivity.
  unfold db_odd in Hres. simpl lineUserId in H2.
  rewrite H2 in Hres. injection Hres as ->.
  vm_compute. reflexivity.
Defined.

(** ** The two GET handlers: validation and failures *)

(** X13 — The GET handlers validate before they query and never write:
    with the parameter missing or empty, [GET /api/slots] and
    [GET /api/my-bookings] answer 400 without any effect; with the
    parameter present and a failing query they answer 500 "db error" and
    log; otherwise they answer 200 after exactly one query.  In every
    case the table is left as it was. *)
Theorem get_handlers_validate_and_read_only err qv db :
  db_after (get_slots err qv db) = db ∧
  db_after (get_my_bookings err qv db) = db ∧
  (missing_or_empty qv →
   get_slots err qv db
     = Outcome (Error 400 "date is required (YYYY-MM-DD)") db [] ∧
   get_my_bookings err qv db
     = Outcome (Error 400 "lineUserId is required") db []) ∧
  (¬ missing_or_empty qv → err = true →
   get_slots err qv db
     = Outcome (Error 500 "db error") db
         [DbAllGroup (or_empty qv); ConsoleError] ∧
   get_my_bookings err qv db
     = Outcome (Error 500 "db error") db [DbAllUser qv; ConsoleError]) ∧
  (¬ missing_or_empty qv → err = false →
   (∃ body, resp (get_slots err qv db) = Json 200 body) ∧
   trace (get_slots err qv db) = [DbAllGroup (or_empty qv)] ∧
   (∃ rs, resp (get_my_bookings err qv db) = Json 200 rs) ∧
   trace (get_my_bookings err qv db) = [DbAllUser qv]).
Proof.
  unfold get_slots, get_my_bookings.
  destruct (truthy qv) eqn:Hq; simpl.
  - assert (¬ missing_or_empty qv) as Hne.
    { rewrite <- truthy_false_iff. congruence. }
    destruct err; simpl.
    + repeat split; done.
    + repeat split; try done; by eexists.
  - apply truthy_false_iff in Hq. repeat split; done.
Qed.

Lemma get_handlers_validate_and_read_only_witness :
  missing_or_empty (Some "") ∧
  resp (get_slots false (Some "") db_ann)
    = Error 400 "date is required (YYYY-MM-DD)" ∧
  resp (get_my_bookings false (Some "") db_ann)
    = Error 400 "lineUserId is required".
Proof.
  assert (missing_or_empty (Some "")) as H by (by right).
  split; [exact H|].
  destruct (proj1 (proj2 (proj2
    (get_handlers_validate_and_read_only false (Some "") db_ann))) H)
    as [-> ->].
  done.
Defined.

(** ** The LINE handler, case by case *)

Lemma handleLineEvent_cases db_err rr ev db :
  (¬ is_text_message ev ∧
   handleLineEvent db_err rr ev db = (ResolvedNull, []))
  ∨ (is_text_message ev ∧ is_my_queue ev ∧ db_err = true ∧
     handleLineEvent db_err rr ev db
     = (Rejected, [DbAllUser (ev_userId ev); ConsoleError]))
  ∨ (is_text_message ev ∧ is_my_queue ev ∧ db_err = false ∧
     handleLineEvent db_err rr ev db
     = (if rr then Rejected else ResolvedReply,
        [DbAllUser (ev_userId ev);
         ReplyMessage (ev_replyToken ev)
           (queue_text (select_by_user (ev_userId ev) (rows db)))]))
  ∨ (is_text_message ev ∧ ¬ is_my_queue ev ∧
     handleLineEvent db_err rr ev db
     = (if rr then Rejected else ResolvedReply,
        [ReplyMessage (ev_replyToken ev) helpText])).
Proof.
  unfold handleLineEvent, is_text_message, is_my_queue.
  destruct (String.eqb_spec (ev_type ev) "message") as [H1|H1]; simpl.
  2: { left. split; [tauto | done]. }
  destruct (String.eqb_spec (ev_message_type ev) "text") as [H2|H2]; simpl.
  2: { left. split; [tauto | done]. }
  right.
  destruct (String.eqb_spec (trim (ev_text ev)) "คิวของฉัน") as [H3|H3].
  2: { right. right. done. }
  destruct db_err.
  - left. done.
  - right. left. done.
Qed.

(** X14 — What the LINE handler touches: its only effects are the
    by-user query for the sender, replies to the event's own reply token
    and error logging: it never writes to the table and never pushes a
    message.  It queries the store exactly when the event is a text
    message whose trimmed text is the "my queue" command; an event that
    is not a text message is resolved with null without any effect. *)
Theorem chat_handler_discipline db_err rr ev db :
  (∀ x, x ∈ (handleLineEvent db_err rr ev db).2 →
     x = DbAllUser (ev_userId ev) ∨ x = ConsoleError ∨
     ∃ text, x = ReplyMessage (ev_replyToken ev) text) ∧
  (DbAllUser (ev_userId ev) ∈ (handleLineEvent db_err rr ev db).2 ↔
   is_text_message ev ∧ is_my_queue ev) ∧
  (¬ is_text_message ev →
   handleLineEvent db_err rr ev db = (ResolvedNull, [])).
Proof.
  destruct (handleLineEvent_cases db_err rr ev db)
    as [[Ht H] | [(Ht & Hc & _ & H) | [(Ht & Hc & _ & H) | (Ht & Hc & H)]]];
    rewrite H; cbn [fst snd]; (split; [|split]); try done.
  - by intros x ?%elem_of_nil.
  - split; [by intros ?%elem_of_nil | tauto].
  - intros x. rewrite !elem_of_cons, elem_of_nil. intuition eauto.
  - split; [done|]. intros _. left.
  - intros x. rewrite !elem_of_cons, elem_of_nil. intuition eauto.
  - split; [done|]. intros _. left.
  - intros x. rewrite !elem_of_cons, elem_of_nil. intuition eauto.
  - split; [|tauto].
    intros [[=] | ?%elem_of_nil]%elem_of_cons. done.
Qed.

(** X15 — One reply per text message: a text message whose store query
    does not fail causes exactly one reply, to the event's reply token:
    the list of the sender's bookings for the "my queue" command, the
    help text for anything else.  When the query of a "my queue" command
    fails, no reply is sent and the promise is rejected. *)
Theorem text_message_gets_one_reply db_err rr ev db :
  is_text_message ev →
  (¬ (is_my_queue ev ∧ db_err = true) →
   ∃ text,
     filter is_reply (handleLineEvent db_err rr ev db).2
       = [ReplyMessage (ev_replyToken ev) text] ∧
     (is_my_queue ev →
      text = queue_text (select_by_user (ev_userId ev) (rows db))) ∧
     (¬ is_my_queue ev → text = helpText)) ∧
  (is_my_queue ev → db_err = true →
   filter is_reply (handleLineEvent db_err rr ev db).2 = [] ∧
   (handleLineEvent db_err rr ev db).1 = Rejected).
Proof.
  intros Ht.
  destruct (handleLineEvent_cases db_err rr ev db)
    as [[Hn _] | [(_ & Hc & He & H) | [(_ & Hc & He & H) | (_ & Hc & H)]]];
    [done|..]; rewrite H; cbn [fst snd]; split.
  - intros Hno. destruct Hno. done.
  - done.
  - intros _. eexists. split; [reflexivity|]. split; [done|].
    intros Hno. by destruct Hno.
  - intros _ ?. congruence.
  - intros _. eexists. split; [reflexivity|]. split; [|done].
    intros ?. by destruct Hc.
  - intros ?. by destruct Hc.
Qed.

Lemma text_message_gets_one_reply_witness :
  is_text_message my_queue_event ∧
  filter is_reply (handleLineEvent false false my_queue_event db_week).2
  = [ReplyMessage "token-1"
       (queue_text (select_by_user (Some "Uann") (rows db_week)))].
Proof.
  assert (is_text_message my_queue_event) as Ht by done.
  assert (is_my_queue my_queue_event) as Hc by (vm_compute; reflexivity).
  split; [exact Ht|].
  destruct (proj1 (text_message_gets_one_reply false false my_queue_event
                     db_week Ht)) as (text & H1 & H2 & _).
  { by intros [_ [=]]. }
  rewrite H1. by rewrite (H2 Hc).
Defined.

Lemma trim_start_blank pre s :
  ascii_blank pre = true → trim_start (pre +:+ s) = trim_start s.
Proof.
  induction pre as [|a pre IH]; simpl; [done|].
  intros [Ha Hpre]%andb_true_iff. rewrite Ha. by apply IH.
Qed.

Lemma rev_app_append s1 s2 acc :
  String.rev_app (s1 +:+ s2) acc = String.rev_app s2 (String.rev_app s1 acc).
Proof.
  revert acc. induction s1 as [|a s1 IH]; intros acc; simpl; [done|].
  apply IH.
Qed.

Lemma trim_start_rev_blank post s :
  ascii_blank post = true →
  trim_start_rev (String.rev_app post s) = trim_start_rev s.
Proof.
  revert s. induction post as [|a post IH]; intros s; simpl; [done|].
  intros [Ha Hpost]%andb_true_iff. rewrite IH by done. simpl.
  by rewrite Ha.
Qed.

(** X16 — The command tolerates surrounding white space: a text message
    whose text is the "my queue" command with any ASCII white space
    (spaces, tabs, line breaks) before and after it is treated as the
    command: the handler queries the sender's bookings and replies with
    their list. *)
Theorem my_queue_tolerates_blanks rr ev db pre post :
  is_text_message ev →
  ascii_blank pre = true → ascii_blank post = true →
  ev_text ev = pre +:+ "คิวของฉัน" +:+ post →
  is_my_queue ev ∧
  handleLineEvent false rr ev db
  = (if rr then Rejected else ResolvedReply,
     [DbAllUser (ev_userId ev);
      ReplyMessage (ev_replyToken ev)
        (queue_text (select_by_user (ev_userId ev) (rows db)))]).
Proof.
  intros [H1 H2] Hpre Hpost Htext.
  assert (is_my_queue ev) as Hc.
  { unfold is_my_queue, trim. rewrite Htext, trim_start_blank by done.
    assert (trim_start ("คิวของฉัน" +:+ post) = "คิวของฉัน" +:+ post) as ->
      by reflexivity.
    unfold String.rev at 2. rewrite rev_app_append.
    rewrite trim_start_rev_blank by done. reflexivity. }
  split; [done|].
  exact (handleLineEvent_my_queue false rr ev db H1 H2 Hc).
Qed.

Lemma my_queue_tolerates_blanks_witness :
  (is_text_message my_queue_event ∧ ascii_blank " " = true ∧
   ascii_blank nl = true ∧
   ev_text my_queue_event = " " +:+ "คิวของฉัน" +:+ nl) ∧
  is_my_queue my_queue_event.
Proof.
  assert (is_text_message my_queue_event) as Ht by done.
  split; [by repeat split|].
  exact (proj1 (my_queue_tolerates_blanks false my_queue_event db_week
                  " " nl Ht eq_refl eq_refl eq_refl)).
Defined.

Lemma select_by_user_nil u (l : list booking) :
  select_by_user u l = [] ↔ ∀ b, b ∈ l → Some (lineUserId b) ≠ u.
Proof.
  destruct u as [v|]; simpl; [|done].
  rewrite <- Permutation_nil_r, order_by_perm, Permutation_nil_r. split.
  - intros Hnil b Hb [= Hv].
    assert (b ∈ filter (fun b => lineUserId b = v) l) as Hin
      by (by apply list_elem_of_filter).
    rewrite Hnil in Hin. by apply elem_of_nil in Hin.
  - intros Hnone.
    destruct (filter (fun b => lineUserId b = v) l) as [|b k] eqn:E; [done|].
    assert (b ∈ filter (fun b => lineUserId b = v) l) as Hin
      by (rewrite E; left).
    apply list_elem_of_filter in Hin as [Hv Hb].
    destruct (Hnone b Hb). by rewrite Hv.
Qed.

Lemma queue_text_empty rs :
  queue_text rs = "ตอนนี้ยังไม่มีคิวในระบบนะคะ" ↔ rs = [].
Proof.
  split; [|by intros ->].
  destruct rs as [|b rs]; [done|]. unfold queue_text. simpl. discriminate.
Qed.

(** X17 — The empty-queue reply: for a "my queue" command (query
    succeeding) the reply is the "no bookings yet" text exactly when the
    table holds no row of the sender (in particular when the event
    carries no user id); otherwise it is the heading followed by one line
    per booking of the sender. *)
Theorem empty_queue_reply rr ev db :
  is_text_message ev → is_my_queue ev →
  ∃ text,
    handleLineEvent false rr ev db
    = (if rr then Rejected else ResolvedReply,
       [DbAllUser (ev_userId ev); ReplyMessage (ev_replyToken ev) text]) ∧
    (text = "ตอนนี้ยังไม่มีคิวในระบบนะคะ" ↔
     ∀ b, b ∈ rows db → Some (lineUserId b) ≠ ev_userId ev) ∧
    (text ≠ "ตอนนี้ยังไม่มีคิวในระบบนะคะ" →
     text = "🗓 คิวของคุณมีดังนี้" +:+ nl +:+ nl +:+
            String.concat nl
              (queue_line <$> select_by_user (ev_userId ev) (rows db))).
Proof.
  intros [H1 H2] Hc.
  rewrite (handleLineEvent_my_queue false rr ev db H1 H2 Hc).
  eexists. split; [reflexivity|]. split.
  - by rewrite queue_text_empty, select_by_user_nil.
  - rewrite queue_text_empty. unfold queue_text.
    by destruct (select_by_user (ev_userId ev) (rows db)).
Qed.

Lemma empty_queue_reply_witness :
  (is_text_message my_queue_event ∧ is_my_queue my_queue_event) ∧
  handleLineEvent false false my_queue_event empty_db
  = (ResolvedReply,
     [DbAllUser (Some "Uann");
      ReplyMessage "token-1" "ตอนนี้ยังไม่มีคิวในระบบนะคะ"]).
Proof.
  assert (is_text_message my_queue_event) as Ht by done.
  assert (is_my_queue my_queue_event) as Hc by (vm_compute; reflexivity).
  split; [done|].
  destruct (empty_queue_reply false my_queue_event empty_db Ht Hc)
    as (text & -> & Hiff & _).
  assert (text = "ตอนนี้ยังไม่มีคิวในระบบนะคะ") as ->; [|done].
  apply Hiff. by intros b ?%elem_of_nil.
Defined.

(** ** The webhook *)

Lemma handleLineEvent_rejected_iff db_err rr ev db :
  (handleLineEvent db_err rr ev db).1 = Rejected ↔ chat_rejects db_err rr ev.
Proof.
  unfold chat_rejects.
  destruct (handleLineEvent_cases db_err rr ev db)
    as [[Ht H] | [(Ht & Hc & He & H) | [(Ht & Hc & He & H) | (Ht & Hc & H)]]];
    rewrite H; cbn [fst].
  - split; [done | tauto].
  - split; [|done]. intros _. split; [done|]. by left.
  - destruct rr.
    + split; [|done]. intros _. split; [done|]. by right.
    + split; [done|]. intros [_ [[_ ?] | ?]]; congruence.
  - destruct rr.
    + split; [|done]. intros _. split; [done|]. by right.
    + split; [done|]. intros [_ [[? _] | ?]]; [tauto | congruence].
Qed.

Lemma handleLineEvent_fulfilled db_err rr ev db r :
  fulfilment (handleLineEvent db_err rr ev db).1 = Some r →
  (is_text_message ev → r = ReplyResult) ∧
  (¬ is_text_message ev → r = Null).
Proof.
  destruct (handleLineEvent_cases db_err rr ev db)
    as [[Ht H] | [(Ht & Hc & He & H) | [(Ht & Hc & He & H) | (Ht & Hc & H)]]];
    rewrite H; cbn [fst]; try destruct rr; simpl; intros [=]; subst;
    split; tauto.
Qed.

Lemma mapM_replicate_null n :
  mapM (fun o : settled * list effect => fulfilment o.1)
    (replicate n (ResolvedNull, []))
  = Some (replicate n Null).
Proof. induction n as [|n IH]; simpl; [done|]. by rewrite IH. Qed.

(** X18 — The webhook's answer: [POST /webhook] answers 500 (after
    logging) exactly when the handler of some event is rejected, that is
    when some text message's "my queue" query fails or its reply is
    rejected; otherwise it answers with one result per event, in order:
    the reply's result for a text message, null for any other event.  A
    batch without text messages, the empty batch included, is answered
    with nulls and causes no effect at all. *)
Theorem webhook_answer ds db :
  ((webhook ds db).1.1 = WebhookEnd 500 ↔
   ∃ d, d ∈ ds ∧
        chat_rejects (dl_db_err d) (dl_reply_rejects d) (dl_event d)) ∧
  ((webhook ds db).1.1 = WebhookEnd 500 →
   (webhook ds db).1.2 = [ConsoleError]) ∧
  (∀ result,
     (webhook ds db).1.1 = WebhookJson result →
     (webhook ds db).1.2 = [] ∧
     Forall2 (fun d r =>
                (is_text_message (dl_event d) → r = ReplyResult) ∧
                (¬ is_text_message (dl_event d) → r = Null)) ds result) ∧
  ((∀ d, d ∈ ds → ¬ is_text_message (dl_event d)) →
   webhook ds db
   = (WebhookJson (replicate (length ds) Null), [],
      replicate (length ds) [])).
Proof.
  split; [|split; [|split]].
  - unfold webhook.
    destruct (mapM _ _) as [result|] eqn:E; cbn [fst snd].
    + split; [done|]. intros (d & Hd & Hrej).
      assert (is_Some (mapM (fun o : settled * list effect => fulfilment o.1)
                 ((fun d => handleLineEvent (dl_db_err d)
                              (dl_reply_rejects d) (dl_event d) db) <$> ds)))
        as Hsome by (by rewrite E).
      apply mapM_is_Some_1 in Hsome. rewrite Forall_fmap, Forall_forall in Hsome.
      specialize (Hsome d Hd). simpl in Hsome.
      apply handleLineEvent_rejected_iff with (db := db) in Hrej.
      rewrite Hrej in Hsome. by destruct Hsome.
    + split; [|done]. intros _.
      apply mapM_None_1, Exists_fmap, Exists_exists in E
        as (d & Hd & Hnone).
      exists d. split; [done|].
      apply (handleLineEvent_rejected_iff _ _ _ db). simpl in Hnone.
      by destruct (handleLineEvent (dl_db_err d) (dl_reply_rejects d)
                     (dl_event d) db).1.
  - unfold webhook. by destruct (mapM _ _).
  - intros result. unfold webhook.
    destruct (mapM _ _) as [result'|] eqn:E; cbn [fst snd]; [|done].
    intros [= <-]. split; [done|].
    apply mapM_Some_1, Forall2_fmap_l in E.
    eapply Forall2_impl; [exact E|].
    intros d r Hr. simpl in Hr. by eapply handleLineEvent_fulfilled.
  - intros Hnone. unfold webhook.
    assert ((fun d => handleLineEvent (dl_db_err d) (dl_reply_rejects d)
                        (dl_event d) db) <$> ds
            = replicate (length ds) (ResolvedNull, [])) as ->.
    { induction ds as [|d ds IH]; [done|]. simpl. f_equal.
      - destruct (handleLineEvent_cases (dl_db_err d) (dl_reply_rejects d)
                    (dl_event d) db) as [[_ H] | [[Ht _] | [[Ht _] | [Ht _]]]];
          [done|..]; (destruct (Hnone d); [left | done]).
      - apply IH. intros d' Hd'. apply Hnone. by right. }
    rewrite mapM_replicate_null. by rewrite fmap_replicate.
Qed.

Lemma webhook_answer_witness :
  webhook two_events db_week
  = (WebhookJson [Null; ReplyResult], [],
     [[];
      [DbAllUser (Some "Uann");
       ReplyMessage "token-1"
         (queue_text (select_by_user (Some "Uann") (rows db_week)))]]) ∧
  Forall2 (fun d r =>
             (is_text_message (dl_event d) → r = ReplyResult) ∧
             (¬ is_text_message (dl_event d) → r = Null))
    two_events [Null; ReplyResult].
Proof.
  assert (webhook two_events db_week
          = (WebhookJson [Null; ReplyResult], [],
             [[];
              [DbAllUser (Some "Uann");
               ReplyMessage "token-1"
                 (queue_text (select_by_user (Some "Uann") (rows db_week)))]]))
    as Heq by (vm_compute; reflexivity).
  split; [exact Heq|].
  apply (proj1 (proj2 (proj2 (webhook_answer two_events db_week)))).
  by rewrite Heq.
Defined.

(** ** The table and the answers *)

Lemma step_task_row t db :
  (row_of_task (step_task t db).1.1 = row_of_task t ∧
   (step_task t db).1.2 = db) ∨
  (row_of_task t = None ∧
   ∃ b, row_of_task (step_task t db).1.1 = Some b ∧
        rows (step_task t db).1.2 = rows db ++ [b]).
Proof.
  destruct t as [e q|e q|e q [c|]|e q c|e q c [i|]|[c b'|c m]]; simpl;
    repeat case_match; simpl; auto.
  right. split; [done|]. by eexists.
Qed.

Lemma reachable_server_store s : reachable_server s → reachable (store s).
Proof.
  induction 1 as [reqs|s i _ IH]; [constructor|]. by constructor.
Qed.

Lemma reachable_server_rows_of_tasks s :
  reachable_server s → omap row_of_task (tasks s) ≡ₚ rows (store s).
Proof.
  induction 1 as [reqs|s i _ IH].
  - simpl. induction reqs as [|r reqs IHr]; [done|]. exact IHr.
  - destruct (tasks s !! i) as [t|] eqn:Ht.
    2: { unfold step. by rewrite Ht. }
    apply list_elem_of_split_length in Ht as (l1 & l2 & Htasks & ->).
    destruct s as [db ts lg]. simpl in *. subst ts.
    rewrite step_at. cbn [tasks store].
    rewrite omap_app in IH |- *. simpl in IH |- *.
    destruct (step_task_row t db) as [[-> ->] | (Hnone & b & -> & ->)].
    + exact IH.
    + rewrite Hnone in IH. rewrite <- IH.
      rewrite <- app_assoc. apply Permutation_app_head.
      apply Permutation_cons_append.
Qed.

Lemma StronglySorted_lt_NoDup (l : list Z) : StronglySorted Z.lt l → NoDup l.
Proof.
  induction 1 as [|x l _ IH Hx]; constructor; [|done].
  intros Hin. rewrite Forall_forall in Hx. specialize (Hx x Hin). lia.
Qed.

Lemma omap_answered (ts : list task) :
  Forall answered ts → omap row_of_task ts = omap created ts.
Proof.
  induction 1 as [|t ts Ht _ IH]; [done|].
  destruct t as [| | | | |[c b|c m]]; try done.
  simpl. f_equal. exact IH.
Qed.

(** X19 — The table is what the requests put there: started on the empty
    table, under any interleaving, the rows of the table are exactly the
    bookings of the requests whose INSERT has run, each once.  So when
    every request has been answered, the table holds exactly the bookings
    returned in the 201 answers; and no two requests are ever answered
    with the same booking id, even when they race for one slot. *)
Theorem table_is_the_answers s :
  reachable_server s →
  omap row_of_task (tasks s) ≡ₚ rows (store s) ∧
  (Forall answered (tasks s) → omap created (tasks s) ≡ₚ rows (store s)) ∧
  NoDup (id <$> omap row_of_task (tasks s)) ∧
  (∀ i j c1 c2 b1 b2,
     i ≠ j →
     tasks s !! i = Some (Responded (Json c1 b1)) →
     tasks s !! j = Some (Responded (Json c2 b2)) →
     id b1 ≠ id b2).
Proof.
  intros Hreach.
  pose proof (reachable_server_rows_of_tasks s Hreach) as Hperm.
  assert (NoDup (id <$> omap row_of_task (tasks s))) as Hnd.
  { rewrite Hperm. apply StronglySorted_lt_NoDup, reachable_ids_increasing.
    by apply reachable_server_store. }
  split; [done|]. split; [|split; [done|]].
  - intros Hall. by rewrite <- omap_answered.
  - intros i j c1 c2 b1 b2 Hij Hi Hj Hid.
    assert (∀ i j c1 c2 b1 b2, (i < j)%nat →
              tasks s !! i = Some (Responded (Json c1 b1)) →
              tasks s !! j = Some (Responded (Json c2 b2)) →
              id b1 = id b2 → False) as Hlt.
    { clear i j c1 c2 b1 b2 Hij Hi Hj Hid.
      intros i j c1 c2 b1 b2 Hij Hi Hj Hid.
      apply list_elem_of_split_length in Hi as (l1 & l2 & Htasks & ->).
      rewrite Htasks in Hj, Hnd.
      rewrite lookup_app_r in Hj by lia.
      destruct (j - length l1)%nat as [|k] eqn:Hk; [lia|]. simpl in Hj.
      rewrite omap_app, fmap_app in Hnd. simpl in Hnd.
      apply NoDup_app in Hnd as (_ & _ & Hnd).
      apply NoDup_cons in Hnd as [Hnotin _].
      apply Hnotin. rewrite Hid. apply list_elem_of_fmap_2.
      apply list_elem_of_omap. exists (Responded (Json c2 b2)).
      split; [|done]. by eapply list_elem_of_lookup_2. }
    destruct (Nat.lt_total i j) as [Hlt' | [-> | Hgt]]; [|done|].
    + by eapply (Hlt i j).
    + by eapply (Hlt j i).
Qed.

Lemma table_is_the_answers_witness :
  reachable_server
    (run (Server empty_db
            ((fun r => Received r.1 r.2)
               <$> [(env_ok, req_ann); (env_ok, req_bob)]) [])
       [0; 1; 0; 1; 0; 1; 0; 1; 0; 1]%nat) ∧
  omap created
    (tasks (run (Server empty_db
                   ((fun r => Received r.1 r.2)
                      <$> [(env_ok, req_ann); (env_ok, req_bob)]) [])
              [0; 1; 0; 1; 0; 1; 0; 1; 0; 1]%nat))
  ≡ₚ rows (store (run (Server empty_db
                         ((fun r => Received r.1 r.2)
                            <$> [(env_ok, req_ann); (env_ok, req_bob)]) [])
                    [0; 1; 0; 1; 0; 1; 0; 1; 0; 1]%nat)).
Proof.
  assert (∀ s sched, reachable_server s → reachable_server (run s sched))
    as Hrun.
  { intros s sched. revert s.
    induction sched as [|i sched IH]; intros s Hs; [done|].
    rewrite run_cons. apply IH. by constructor. }
  assert (reachable_server
    (run (Server empty_db
            ((fun r => Received r.1 r.2)
               <$> [(env_ok, req_ann); (env_ok, req_bob)]) [])
       [0; 1; 0; 1; 0; 1; 0; 1; 0; 1]%nat)) as Hreach.
  { apply Hrun. constructor. }
  split; [exact Hreach|].
  apply (proj1 (proj2 (table_is_the_answers _ Hreach))).
  vm_compute. repeat constructor.
Defined.

(** ** The confirmation message *)

Lemma string_append_assoc s1 s2 s3 :
  (s1 +:+ s2) +:+ s3 = s1 +:+ s2 +:+ s3.
Proof.
  induction s1 as [|a s1 IH]; [done|].
  change (String a ((s1 +:+ s2) +:+ s3) = String a (s1 +:+ s2 +:+ s3)).
  congruence.
Qed.

(** X20 — The confirmation goes to the requester and names the booking:
    when the answer is 201 with booking [b], exactly one push message is
    sent, addressed to [b]'s [lineUserId], and its text is the
    confirmation built from [b]'s name, date, time and id, ending in the
    booking number [#id]. *)
Theorem confirmation_names_the_booking e q db b :
  resp (post_book e q db) = Json 201 b →
  filter is_push (trace (post_book e q db))
  = [PushMessage (lineUserId b)
       (confirm_text (name b) (date b) (time b) (id b))] ∧
  lineUserId b = or_empty (q_lineUserId q) ∧
  ∃ head, confirm_text (name b) (date b) (time b) (id b)
          = head +:+ "#" +:+ pretty (id b).
Proof.
  intros H.
  destruct (post_book_created _ _ _ _ H) as (Hq & He & Hr & Hc).
  pose proof (post_book_free e q db Hq He Hr Hc) as Heq. simpl in Heq.
  rewrite Heq in H |- *. cbn [resp trace] in *.
  assert (b = Booking (next_id db) (or_empty (q_lineUserId q))
                (or_empty (q_name q)) (or_empty (q_date q))
                (or_empty (q_time q)) (or_empty (q_note q)) "CONFIRMED"
                (now e)) as -> by congruence.
  cbn [lineUserId name date time id]. split; [|split; [done|]].
  - unfold push_confirmation. by destruct (push_rejects e).
  - unfold confirm_text.
    exists ("✅ จองคิวสำเร็จแล้ว" +:+ nl +:+ nl +:+
            "ชื่อ: " +:+ or_empty (q_name q) +:+ nl +:+
            "วันที่: " +:+ or_empty (q_date q) +:+ nl +:+
            "เวลา: " +:+ or_empty (q_time q) +:+ nl +:+
            "หมายเลขการจอง: ").
    generalize (pretty (next_id db)). intros tail.
    generalize (or_empty (q_name q)) (or_empty (q_date q))
      (or_empty (q_time q)). intros n d t.
    rewrite !string_append_assoc. reflexivity.
Qed.

Lemma confirmation_names_the_booking_witness :
  resp (post_book env_ok req_ann empty_db)
    = Json 201 (Booking 1 "Uann" "Ann" "2024-01-01" "09:00" "" "CONFIRMED"
                  "2024-01-01T08:00:00.000Z") ∧
  filter is_push (trace (post_book env_ok req_ann empty_db))
  = [PushMessage "Uann" (confirm_text "Ann" "2024-01-01" "09:00" 1)].
Proof.
  split; [reflexivity|].
  exact (proj1 (confirmation_names_the_booking env_ok req_ann empty_db _
                  eq_refl)).
Defined.

Lemma race_inserts_both_witness :
  (complete req_ann ∧ complete req_bob ∧
   count_slot "2024-01-01" "09:00" (rows empty_db) < CAPACITY_PER_SLOT) ∧
  count_slot "2024-01-01" "09:00"
    (rows (store (run (Server empty_db [Received env_ok req_ann;
                                        Received env_ok req_bob] [])
                    [0; 1; 0; 1; 0; 1; 0; 1; 0; 1]%nat)))
  = 0 + 2.
Proof.
  assert (complete req_ann) as Hq1 by (repeat split).
  assert (complete req_bob) as Hq2 by (repeat split).
  assert (count_slot "2024-01-01" "09:00" (rows empty_db) < CAPACITY_PER_SLOT)
    as Hc by reflexivity.
  split; [done|].
  exact (proj2 (race_inserts_both env_ok env_ok req_ann req_bob empty_db
                  Hq1 Hq2 eq_refl eq_refl eq_refl eq_refl eq_refl eq_refl
                  Hc)).
Defined.

(** ** Bounds of the availability figures *)

(** X22 — Bounds of the availability view: in every 200 answer of
    [GET /api/slots], [booked] is never negative and [available] never
    exceeds [capacity]; and on a table where no slot is over capacity,
    [booked] is at most [capacity], [available] is never negative, and
    [isFull] holds exactly when [booked] equals [capacity]. *)
Theorem availability_within_bounds err qd db body :
  resp (get_slots err qd db) = Json 200 body →
  Forall (fun v => 0 ≤ s_booked v ∧ s_available v ≤ s_capacity v)
    (sb_slots body) ∧
  (within_capacity (rows db) →
   Forall (fun v =>
             s_booked v ≤ s_capacity v ∧ 0 ≤ s_available v ∧
             (s_isFull v = true ↔ s_booked v = s_capacity v))
     (sb_slots body)).
Proof.
  intros H.
  destruct (get_slots_200 _ _ _ _ H) as (-> & d & -> & Hd).
  rewrite get_slots_ok in H by done. cbn [resp] in H.
  assert (body = SlotsBody d
            ((fun t => spec_slot (count_slot d t (rows db)) t) <$> TIME_SLOTS))
    as -> by congruence.
  clear H. cbn [sb_slots]. split.
  - apply Forall_fmap, Forall_forall. intros t _. simpl.
    pose proof (count_slot_nonneg d t (rows db)). lia.
  - intros Hcap. apply Forall_fmap, Forall_forall. intros t _. simpl.
    pose proof (count_slot_nonneg d t (rows db)).
    specialize (Hcap d t).
    split; [lia|]. split; [lia|].
    rewrite bool_decide_eq_true. lia.
Qed.

Lemma availability_within_bounds_witness :
  ∃ body,
    resp (get_slots false (Some "2024-01-01") db_ann) = Json 200 body ∧
    within_capacity (rows db_ann) ∧
    Forall (fun v => 0 ≤ s_booked v ∧ s_available v ≤ s_capacity v)
      (sb_slots body).
Proof.
  eexists. split; [reflexivity|]. split.
  - apply (post_book_within_capacity env_ok req_ann empty_db).
    intros d t. vm_compute. discriminate.
  - exact (proj1 (availability_within_bounds false (Some "2024-01-01") db_ann
                    _ eq_refl)).
Defined.
